(** * Simulation engine (SimEngine_v4.py): forcing specs, propagation law, loss

    A shallow embedding of the numerical core of the simulation engine:
    the class [LeonTradeModel] (constructor, [shock_impulse],
    [recovery_impulse]), the two right-hand sides [economic_dynamics_ode]
    and [economic_dynamics_ode_rec], and the reduction [total_out_loss];
    and of the script around them: the time grid, the economy-wide triple
    handed to the model, and the two panels of per-sector entries.

    Conventions of the embedding.
    - Python floats are read as exact rationals ([Qc], canonical fractions,
      so that equality is Leibniz equality); rounding is not modelled.
    - A 1-D numpy array is a [list Qc]; a 2-D array is the list of its rows.
    - A Python [dict] is an insertion-ordered association list whose keys
      are kept unique by [dict_set]; keys are sector labels (strings).
    - A raised exception is the [Raise] branch of [result]. *)

From Stdlib Require Import String Bool Arith ZArith QArith Qcanon Lia
  Permutation List.
Import ListNotations.

Local Open Scope string_scope.
Local Open Scope list_scope.
Local Open Scope Qc_scope.

(** ** Numbers *)

Definition qz (z : Z) : Qc := Q2Qc (inject_Z z).

(** [a <= b] on floats, as a boolean. *)
Definition qleb (a b : Qc) : bool := Qle_bool a b.

(** ** Exceptions *)

Inductive exn : Type :=
| TypeError
| AttributeError
| ValueError
| IndexError.

Inductive result (A : Type) : Type :=
| Ok (a : A)
| Raise (e : exn).

Arguments Ok {A} a.
Arguments Raise {A} e.

Definition bind {A B : Type} (c : result A) (k : A -> result B) : result B :=
  match c with
  | Ok a => k a
  | Raise e => Raise e
  end.

Notation "x <- c ;; k" := (bind c (fun x => k))
  (at level 61, c at next level, right associativity).

(** ** Python dictionaries *)

Definition label := string.

Definition dict (V : Type) := list (label * V).

Fixpoint dict_get {V : Type} (d : dict V) (k : label) : option V :=
  match d with
  | [] => None
  | (k', v) :: r => if String.eqb k' k then Some v else dict_get r k
  end.

(** [d[k] = v]: an existing key keeps its position, a new key goes last. *)
Fixpoint dict_set {V : Type} (d : dict V) (k : label) (v : V) : dict V :=
  match d with
  | [] => [(k, v)]
  | (k', v') :: r =>
      if String.eqb k' k then (k', v) :: r else (k', v') :: dict_set r k v
  end.

Definition keys {V : Type} (d : dict V) : list label := map fst d.

Fixpoint mem (k : label) (l : list label) : bool :=
  match l with
  | [] => false
  | k' :: r => String.eqb k' k || mem k r
  end.

Fixpoint nodupb (l : list label) : bool :=
  match l with
  | [] => true
  | k :: r => negb (mem k r) && nodupb r
  end.

(** A list of pairs is a dictionary when no key occurs twice. *)
Definition dict_wf {V : Type} (d : dict V) : bool := nodupb (keys d).

(** [for k in src: acc[k] = src[k]] *)
Definition dict_overlay {V : Type} (acc src : dict V) : dict V :=
  fold_left
    (fun a k => match dict_get src k with
                | Some v => dict_set a k v
                | None => a
                end)
    (keys src) acc.

(** ** Arrays *)

Definition vec := list Qc.
Definition matrix := list vec.

Fixpoint zip_with {A B C : Type} (f : A -> B -> C) (l1 : list A) (l2 : list B)
  : list C :=
  match l1, l2 with
  | a :: r1, b :: r2 => f a b :: zip_with f r1 r2
  | _, _ => []
  end.

Definition zeros (n : nat) : vec := repeat 0 n.
Definition ones (n : nat) : vec := repeat 1 n.

Definition vsum (v : vec) : Qc := fold_left Qcplus v 0.

(** Inner product of two 1-D arrays of one length. *)
Definition inner (u v : vec) : Qc := vsum (zip_with Qcmult u v).

Definition ncols (M : matrix) : nat := length (hd [] M).

Definition column (j : nat) (M : matrix) : vec := map (fun row => nth j row 0) M.

(** [M.T] *)
Definition transpose (M : matrix) : matrix :=
  map (fun j => column j M) (seq 0 (ncols M)).

(** [np.dot(M, v)] for a 2-D [M] and a 1-D [v]: the shapes must agree. *)
Definition np_dot (M : matrix) (v : vec) : result vec :=
  if forallb (fun row => Nat.eqb (length row) (length v)) M
  then Ok (map (fun row => inner row v) M)
  else Raise ValueError.

(** [pd.unique]: first occurrences, in order. *)
Fixpoint unique_acc (seen l : list label) : list label :=
  match l with
  | [] => []
  | k :: r => if mem k seen then unique_acc seen r else k :: unique_acc (k :: seen) r
  end.

Definition unique (l : list label) : list label := unique_acc [] l.

(** ** The Leontief model *)

(** A labelled square frame: [read_data] sets the columns to the index. *)
Record DataFrame : Type := {
  df_index : list label;
  df_values : matrix
}.

(** [len(df)] *)
Definition df_len (df : DataFrame) : nat := length (df_index df).

(** The [demand] argument: the string ['unit'] or an array. *)
Inductive demand_arg : Type :=
| Unit
| Demand (d : vec).

(** A forcing entry [(t0, t1, val)]. *)
Definition triple := (Qc * Qc * Qc)%type.

Definition t_start (x : triple) : Qc := fst (fst x).
Definition t_end (x : triple) : Qc := snd (fst x).
Definition magnitude (x : triple) : Qc := snd x.

Module LeonTradeModel.

(** The instance attributes; [A] is [None] while the attribute is unset. *)
Record t : Type := {
  df_A : DataFrame;
  sector_indices : list label;
  sectors : list label;
  A : option matrix;
  d_base : vec;
  x_base : vec;
  x_out : vec
}.

(** [__init__(self, df_A, demand='unit', type='Upstream')] *)
Definition init (df : DataFrame) (demand : demand_arg) (type : string)
  : result t :=
  let a :=
    if String.eqb type "Upstream" then Some (df_values df)
    else if String.eqb type "Downstream" then Some (transpose (df_values df))
    else None in
  let d :=
    match demand with
    | Unit => ones (df_len df)
    | Demand v => v
    end in
  x <- np_dot (df_values df) d ;;
  Ok {| df_A := df;
        sector_indices := df_index df;
        sectors := unique (df_index df);
        A := a;
        d_base := d;
        x_base := x;
        x_out := x |}.

(** Reading [self.A]. *)
Definition get_A (self : t) : result matrix :=
  match A self with
  | Some a => Ok a
  | None => Raise AttributeError
  end.

Definition twelve : Qc := qz 12.

(** The entry every sector gets from an economy-wide triple. *)
Definition general_entry (g : triple) : triple :=
  (t_start g / twelve, t_end g / twelve, magnitude g).

(** [for sector in self.sectors: vec[sector] = (g[0]/12, g[1]/12, g[2])] *)
Definition fill (self : t) (g : triple) (acc : dict triple) : dict triple :=
  fold_left (fun a s => dict_set a s (general_entry g)) (sectors self) acc.

(** [shock_impulse(self, sectors_n_shocks=None, general_shock=[0, 0, 0])] *)
Definition shock_impulse (self : t) (sectors_n_shocks : option (dict triple))
    (general_shock : triple) : result (dict triple) :=
  let shock_vec := fill self general_shock [] in
  match sectors_n_shocks with
  | None => Raise TypeError
  | Some ov => Ok (dict_overlay shock_vec ov)
  end.

(** [recovery_impulse(self, sectors_n_stimuli=None,
      general_stimulus=[0, 0, 0], type_stimulus='Target sector(s)')] *)
Definition recovery_impulse (self : t) (sectors_n_stimuli : option (dict triple))
    (general_stimulus : triple) (type_stimulus : string)
  : result (dict triple) :=
  if String.eqb type_stimulus "Spread stimulus" then
    Ok (fill self general_stimulus [])
  else if String.eqb type_stimulus "Target sector(s)" then
    match sectors_n_stimuli with
    | None => Raise TypeError
    | Some ov => Ok (dict_overlay [] ov)
    end
  else Ok [].

End LeonTradeModel.

(** ** What the parameter collector hands to the model *)

Definition hundred : Qc := qz 100.

(** [general_shock_list = [start_general, end_general, general_shock/100]] *)
Definition general_shock_list (start_month end_month percent : Qc) : triple :=
  (start_month, end_month, percent / hundred).

(** One entry of [sectors_n_shocks]:
    [(start_sector / 12, end_sector / 12, shock_val / 100)] *)
Definition sector_shock (start_month end_month percent : Qc) : triple :=
  (start_month / LeonTradeModel.twelve, end_month / LeonTradeModel.twelve,
   percent / hundred).

(** ** pandas Series *)

(** A Series is the list of its (label, value) pairs, in index order. *)
Definition series := list (label * Qc).

Definition s_index (s : series) : list label := map fst s.
Definition s_values (s : series) : vec := map snd s.

(** [pd.Series(data = data, index = index)]: the lengths must agree. *)
Definition new_series (data : vec) (index : list label) : result series :=
  if Nat.eqb (length data) (length index)
  then Ok (combine index data)
  else Raise ValueError.

(** [s[k] = v]: every position labelled [k] is set; a label that is not in
    the index is appended (setting with enlargement). *)
Definition series_set (s : series) (k : label) (v : Qc) : series :=
  if mem k (s_index s)
  then map (fun e => if String.eqb (fst e) k then (fst e, v) else e) s
  else s ++ [(k, v)].

(** ** Array arithmetic

    Both operands must have one shape; broadcasting of a length-one axis
    is outside the embedding, which raises there. *)

Definition np_add (u v : vec) : result vec :=
  if Nat.eqb (length u) (length v)
  then Ok (zip_with Qcplus u v)
  else Raise ValueError.

Fixpoint same_shape (M N : matrix) : bool :=
  match M, N with
  | [], [] => true
  | r :: M', s :: N' => Nat.eqb (length r) (length s) && same_shape M' N'
  | _, _ => false
  end.

Definition np_sub (M N : matrix) : result matrix :=
  if same_shape M N
  then Ok (zip_with (zip_with Qcminus) M N)
  else Raise ValueError.

Definition delta (i j : nat) : Qc := if Nat.eqb i j then 1 else 0.

(** [np.eye(n)] *)
Definition np_eye (n : nat) : matrix :=
  map (fun i => map (fun j => delta i j) (seq 0 n)) (seq 0 n).

(** ** The propagation law *)

(** [(t >= attrs[0]) & (t <= attrs[1])] *)
Definition active (t : Qc) (attrs : triple) : bool :=
  qleb (t_start attrs) t && qleb t (t_end attrs).

(** The loop over [spec.items()] that fills a forcing Series at time [t]. *)
Definition apply_forcing (t : Qc) (spec : dict triple) (s : series) : series :=
  fold_left
    (fun acc e => if active t (snd e)
                  then series_set acc (fst e) (magnitude (snd e))
                  else acc)
    spec s.

(** The value returned by [economic_dynamics_ode(y, t, A, sectors,
    external_shock_vec_dict)]. *)
Definition economic_dynamics_ode (y : vec) (t : Qc) (A : matrix)
    (sectors : list label) (external_shock_vec_dict : dict triple)
  : result vec :=
  s0 <- new_series (zeros (length A)) sectors ;;
  let shock_vec := apply_forcing t external_shock_vec_dict s0 in
  M <- np_sub A (np_eye (length A)) ;;
  d <- np_dot M y ;;
  np_add d (s_values shock_vec).

(** The value returned by [economic_dynamics_ode_rec(y, t, A, sectors,
    external_shock_vec_dict, recovery_dict)]. *)
Definition economic_dynamics_ode_rec (y : vec) (t : Qc) (A : matrix)
    (sectors : list label) (external_shock_vec_dict recovery_dict : dict triple)
  : result vec :=
  s0 <- new_series (zeros (length A)) sectors ;;
  r0 <- new_series (zeros (length A)) sectors ;;
  let shock_vec := apply_forcing t external_shock_vec_dict s0 in
  let recovery_vec := apply_forcing t recovery_dict r0 in
  M <- np_sub A (np_eye (length A)) ;;
  d <- np_dot M y ;;
  ds <- np_add d (s_values shock_vec) ;;
  np_add ds (s_values recovery_vec).

(** The function attribute [economic_dynamics_ode.time_vec], shared by the
    two right-hand sides: [None] until the first call sets it. *)
Definition time_log := option (list Qc).

(** [try: time_vec.append(t)  except: time_vec = [t]] *)
Definition log_time (st : time_log) (t : Qc) : time_log :=
  match st with
  | Some l => Some (l ++ [t])
  | None => Some [t]
  end.

(** The two right-hand sides together with their effect on the log. *)
Definition economic_dynamics_ode_call (st : time_log) (y : vec) (t : Qc)
    (A : matrix) (sectors : list label) (shock : dict triple)
  : time_log * result vec :=
  (log_time st t, economic_dynamics_ode y t A sectors shock).

Definition economic_dynamics_ode_rec_call (st : time_log) (y : vec) (t : Qc)
    (A : matrix) (sectors : list label) (shock recovery : dict triple)
  : time_log * result vec :=
  (log_time st t, economic_dynamics_ode_rec y t A sectors shock recovery).

(** ** Quadrature: [scipy.integrate.simps(y, x)]

    The library routine as the engine calls it: 1-D samples [y] against
    sample points [x], with the default [even='avg']. *)

(** A slice bound [i] of a sequence of length [len], as Python clamps it. *)
Definition slice_bound (len : nat) (i : Z) : nat :=
  if (i <? 0)%Z then Z.to_nat (i + Z.of_nat len) else Nat.min (Z.to_nat i) len.

Fixpoint stride2 {A : Type} (l : list A) : list A :=
  match l with
  | [] => []
  | [a] => [a]
  | a :: _ :: r => a :: stride2 r
  end.

(** [l[start:stop:2]] *)
Definition slice2 {A : Type} (start stop : Z) (l : list A) : list A :=
  let a := slice_bound (length l) start in
  let b := slice_bound (length l) stop in
  stride2 (firstn (b - a) (skipn a l)).

(** [np.diff(x)] *)
Definition np_diff (x : vec) : vec := zip_with (fun a b => b - a) x (tl x).

Definition two : Qc := qz 2.
Definition six : Qc := qz 6.
Definition half : Qc := 1 / two.

(** One panel of Simpson's rule on unevenly spaced points. *)
Definition simps_term (y0 y1 y2 h0 h1 : Qc) : Qc :=
  let hsum := h0 + h1 in
  let hprod := h0 * h1 in
  let h0divh1 := h0 / h1 in
  hsum / six * (y0 * (two - 1 / h0divh1)
                + y1 * hsum * hsum / hprod
                + y2 * (two - h0divh1)).

Fixpoint simps_terms (y0 y1 y2 h0 h1 : vec) : vec :=
  match y0, y1, y2, h0, h1 with
  | a :: y0', b :: y1', c :: y2', p :: h0', q :: h1' =>
      simps_term a b c p q :: simps_terms y0' y1' y2' h0' h1'
  | _, _, _, _, _ => []
  end.

(** [_basic_simps(y, start, stop, x, dx, axis)] with [x] given. *)
Definition basic_simps (y : vec) (start stop : Z) (x : vec) : Qc :=
  let h := np_diff x in
  vsum (simps_terms (slice2 start stop y)
                    (slice2 (start + 1) (stop + 1) y)
                    (slice2 (start + 2) (stop + 2) y)
                    (slice2 start stop h)
                    (slice2 (start + 1) (stop + 1) h)).

Definition simps (y x : vec) : result Qc :=
  let N := length y in
  if negb (Nat.eqb (length x) N) then Raise ValueError
  else if Nat.even N then
    if Nat.eqb N 0 then Raise IndexError
    else
      let last_dx := nth (N - 1) x 0 - nth (N - 2) x 0 in
      let val := 0 + half * last_dx * (nth (N - 1) y 0 + nth (N - 2) y 0) in
      let res := basic_simps y 0 (Z.of_nat N - 3) x in
      let first_dx := nth 1 x 0 - nth 0 x 0 in
      let val := val + half * first_dx * (nth 1 y 0 + nth 0 y 0) in
      let res := res + basic_simps y 1 (Z.of_nat N - 2) x in
      let val := val / two in
      let res := res / two in
      Ok (res + val)
  else Ok (basic_simps y 0 (Z.of_nat N - 2) x).

(** ** Total output loss *)

(** What [total_out_loss] returns: a Series (one entry per sector) or a
    scalar. *)
Inductive loss : Type :=
| PerSector (s : series)
| Total (x : Qc).

Fixpoint index_of (k : label) (l : list label) : nat :=
  match l with
  | [] => 0
  | k' :: r => if String.eqb k' k then 0%nat else S (index_of k r)
  end.

(** [_sol_df.loc[:, n]] for a frame with columns [sectors] (labels unique). *)
Definition loc_column (sol : matrix) (sectors : list label) (n : label) : vec :=
  column (index_of n sectors) sol.

(** One pass of the scalar loop: [tot_out_loss += simps(sol[:, n], time_vec)]. *)
Definition add_column_loss (sol : matrix) (time_vec : vec)
    (acc : result Qc) (n : nat) : result Qc :=
  a <- acc ;;
  q <- simps (column n sol) time_vec ;;
  Ok (a + q).

(** One pass of the per-sector loop:
    [tot_out_loss.loc[n] = simps(_sol_df.loc[:, n], time_vec)]. *)
Definition set_sector_loss (sol : matrix) (time_vec : vec)
    (labels : list label) (acc : result series) (n : label) : result series :=
  a <- acc ;;
  q <- simps (loc_column sol labels n) time_vec ;;
  Ok (series_set a n q).

(** [total_out_loss(sol, time_vec, by_sector = True, sectors = None)] *)
Definition total_out_loss (sol : matrix) (time_vec : vec) (by_sector : bool)
    (sectors : option (list label)) : result loss :=
  if by_sector then
    match sectors with
    | None => Raise TypeError
    | Some labels =>
        if negb (Nat.eqb (ncols sol) (length labels)) then Raise ValueError
        else
          s0 <- new_series (zeros (ncols sol)) labels ;;
          r <- fold_left (set_sector_loss sol time_vec labels) labels (Ok s0) ;;
          Ok (PerSector r)
    end
  else
    let num_sectors := ncols sol in
    r <- fold_left (add_column_loss sol time_vec) (seq 0 num_sectors) (Ok 0) ;;
    Ok (Total r).

(** [np.sum(sol, axis = 1)]: the row-sum column of a trajectory. *)
Definition row_sums (sol : matrix) : vec := map vsum sol.

(** ** The integrator *)

(** Modelled from the spec: the numerical integrator.  The engine calls
    [scipy.integrate.odeint], whose code is not part of the repository; the
    design (4.3) allows any adaptive solver that evaluates the right-hand
    side pointwise at the times it requests and starts from the given
    initial state.  Such a solver advances from one sample time of the grid
    to the next by a finite number of evaluations of the right-hand side,
    each at a linear combination of the vectors it holds (the states at the
    samples so far and the earlier evaluations), and what it does next may
    depend on every value seen so far (step-size control).  [Call] asks for
    one evaluation and holds its value; [Yield] gives the state at the next
    sample time and holds it too. *)
Inductive stepper : Type :=
| Yield (coef : list Qc)
| Call (coef : list Qc) (time : Qc) (next : vec -> stepper).

(** [sum_i coef_i * held_i], a vector of length [n]. *)
Definition lincomb (n : nat) (coef : list Qc) (held : list vec) : vec :=
  fold_left (zip_with Qcplus)
            (zip_with (fun c v => map (Qcmult c) v) coef held)
            (zeros n).

Fixpoint run_stepper (f : vec -> Qc -> result vec) (n : nat) (p : stepper)
    (held : list vec) : result (vec * list vec) :=
  match p with
  | Yield coef => let y := lincomb n coef held in Ok (y, held ++ [y])
  | Call coef time next =>
      v <- f (lincomb n coef held) time ;;
      run_stepper f n (next v) (held ++ [v])
  end.

(** A method picks the stepper for the interval [t0, t1] from what it holds. *)
Definition method := list vec -> Qc -> Qc -> stepper.

Fixpoint odeint_from (m : method) (f : vec -> Qc -> result vec) (n : nat)
    (held : list vec) (y : vec) (t0 : Qc) (rest : list Qc)
  : result (list vec) :=
  match rest with
  | [] => Ok [y]
  | t1 :: rest' =>
      r <- run_stepper f n (m held t0 t1) held ;;
      tail <- odeint_from m f n (snd r) (fst r) t1 rest' ;;
      Ok (y :: tail)
  end.

(** [odeint(func, y0, t, args)]: one row per sample time, the first is [y0]. *)
Definition odeint (m : method) (f : vec -> Qc -> result vec) (y0 : vec)
    (t : list Qc) : result (list vec) :=
  match t with
  | [] => Ok []
  | t0 :: rest => odeint_from m f (length y0) [y0] y0 t0 rest
  end.

(** ** The design's words, for comparison with the code *)

(** Design 4.2, [evaluate(spec, t)]: per sector, the magnitude while
    [start <= t <= end], zero otherwise (and zero for a sector without an
    entry). *)
Definition evaluate (spec : dict triple) (t : Qc) (sectors : list label) : vec :=
  map (fun s => match dict_get spec s with
                | Some x => if active t x then magnitude x else 0
                | None => 0
                end)
      sectors.

(** Design 4.3, [(A - I) y + forcing], entry by entry. *)
Definition propagation_law (A : matrix) (y forcing : vec) : vec :=
  let n := length A in
  map (fun i =>
         vsum (map (fun j => (nth j (nth i A []) 0 - delta i j) * nth j y 0)
                   (seq 0 n))
         + nth i forcing 0)
      (seq 0 n).

(** ** Well-formed inputs, as boolean checks *)

(** [A] is an [n] by [n] array. *)
Definition square (n : nat) (A : matrix) : bool :=
  Nat.eqb (length A) n && forallb (fun row => Nat.eqb (length row) n) A.

(** [sol] has [k] columns in every row. *)
Definition rectangular (k : nat) (sol : matrix) : bool :=
  forallb (fun row => Nat.eqb (length row) k) sol.

(** Every key of the spec is a sector of the economy. *)
Definition names_known (sectors : list label) (spec : dict triple) : bool :=
  forallb (fun k => mem k sectors) (keys spec).

(** No entry can push: its magnitude is zero or its interval is empty. *)
Definition quiet (spec : dict triple) : bool :=
  forallb (fun e => Qc_eq_bool (magnitude (snd e)) 0
                    || negb (qleb (t_start (snd e)) (t_end (snd e))))
          spec.

(** [s[k]] on a Series with unique labels. *)
Definition series_get (s : series) (k : label) : option Qc := dict_get s k.

(** What the forcing at [t] does to one entry [(label, value)] of a Series. *)
Definition forced (t : Qc) (spec : dict triple) (e : label * Qc) : label * Qc :=
  (fst e,
   match dict_get spec (fst e) with
   | Some x => if active t x then magnitude x else snd e
   | None => snd e
   end).

(** The sum of the two components of a pair of samples. *)
Definition both (p : Qc * Qc) : Qc := fst p + snd p.

(** The quadrature of column [i] of a trajectory (0 if [simps] raises). *)
Definition column_loss (sol : matrix) (time_vec : vec) (i : nat) : Qc :=
  match simps (column i sol) time_vec with
  | Ok a => a
  | Raise _ => 0
  end.

(** Every vector held is the zero state of dimension [n]. *)
Definition at_rest (n : nat) (held : list vec) : Prop :=
  Forall (fun v => v = zeros n) held.

(** The coefficients that pick the vector held at position [i]. *)
Definition pick (i : nat) : list Qc := repeat 0 i ++ [1].

(** Explicit Euler with one step per interval, an instance of [method]:
    the state at [t1] is [y + (t1 - t0) * f(y, t0)], where [y], the state at
    [t0], is the last vector held. *)
Definition euler : method :=
  fun held t0 t1 =>
    let i := (length held - 1)%nat in
    Call (pick i) t0 (fun _ => Yield (pick i ++ [t1 - t0])).

(** ** Running the model *)

(** The shock-only run of the script:
    [odeint(economic_dynamics_ode, np.zeros(len(network_model.df_A)), grid,
            args = (network_model.A, network_model.sectors, shock_vec))]. *)
Definition run_shock (m : method) (network_model : LeonTradeModel.t)
    (shock_vec : dict triple) (grid : list Qc) : result (list vec) :=
  let y0 := zeros (df_len (LeonTradeModel.df_A network_model)) in
  a <- LeonTradeModel.get_A network_model ;;
  odeint m
    (fun y t =>
       economic_dynamics_ode y t a (LeonTradeModel.sectors network_model)
                             shock_vec)
    y0 grid.

(** ** A two-sector economy for the examples *)

Definition two_sector_frame : DataFrame :=
  {| df_index := ["S1"; "S2"];
     df_values := [[qz 1; qz 2]; [qz 3; qz 4]] |}.

Definition two_sector_model : LeonTradeModel.t :=
  {| LeonTradeModel.df_A := two_sector_frame;
     LeonTradeModel.sector_indices := ["S1"; "S2"];
     LeonTradeModel.sectors := ["S1"; "S2"];
     LeonTradeModel.A := Some [[qz 1; qz 2]; [qz 3; qz 4]];
     LeonTradeModel.d_base := [1; 1];
     LeonTradeModel.x_base := [qz 3; qz 7];
     LeonTradeModel.x_out := [qz 3; qz 7] |}.

(** ** The script around the model *)

(** [c * sol] for a scalar [c] and a 2-D array, as in [sol * 100]. *)
Definition scale_array (c : Qc) (sol : matrix) : matrix :=
  map (map (Qcmult c)) sol.

Definition qn (n : nat) : Qc := qz (Z.of_nat n).

(** [np.linspace(start, stop, num)]: [num] samples, both ends included; the
    last sample is set to [stop]. *)
Definition np_linspace (start stop : Qc) (num : nat) : vec :=
  let step := (stop - start) / qn (num - 1) in
  match num with
  | O => []
  | S O => [start]
  | S (S k) => map (fun i => qn i * step + start) (seq 0 (S k)) ++ [stop]
  end.

(** The grid of a run: [months = years * 12] and
    [np.linspace(0, years, months)]. *)
Definition time_grid (years : nat) : vec :=
  np_linspace 0 (qn years) (years * 12).

(** The values read from the sidebar that decide the economy-wide triple and
    the two specs; the two mappings of per-sector entries are taken as the
    panels built them. *)
Record widgets : Type := {
  genshock_checked : bool;
  genshock_percent : Qc;
  genshock_start : Qc;
  genshock_end : Qc;
  sectors_n_shocks : dict triple;
  want_recovery : bool;
  type_recovery : string;
  sectors_n_stimuli : dict triple;
  genstim_percent : Qc;
  genstim_start : Qc;
  genstim_end : Qc
}.

(** The variable [general_shock_list] when the model is run: set by the
    economy-wide shock panel (or to [[0, 0, 0]]), and set again by the spread
    stimulus panel when that panel is shown. *)
Definition script_general_shock_list (w : widgets) : triple :=
  let from_shock_panel :=
    if genshock_checked w
    then general_shock_list (genshock_start w) (genshock_end w) (genshock_percent w)
    else (0, 0, 0) in
  if want_recovery w && String.eqb (type_recovery w) "Spread stimulus"
  then general_shock_list (genstim_start w) (genstim_end w) (genstim_percent w)
  else from_shock_panel.

(** [shock_vec = network_model.shock_impulse(sectors_n_shocks = sectors_n_shocks,
      general_shock = general_shock_list)] *)
Definition script_shock_vec (network_model : LeonTradeModel.t) (w : widgets)
  : result (dict triple) :=
  LeonTradeModel.shock_impulse network_model (Some (sectors_n_shocks w))
                               (script_general_shock_list w).

(** [recovery_vec], when one is built: the targeted call passes the mapping
    of stimuli and leaves the triple at its default, the spread call passes
    [general_shock_list] and leaves the mapping at its default. *)
Definition script_recovery_vec (network_model : LeonTradeModel.t) (w : widgets)
  : result (option (dict triple)) :=
  if want_recovery w && String.eqb (type_recovery w) "Target sector(s)" then
    r <- LeonTradeModel.recovery_impulse network_model
           (Some (sectors_n_stimuli w)) (0, 0, 0) "Target sector(s)" ;;
    Ok (Some r)
  else if want_recovery w && String.eqb (type_recovery w) "Spread stimulus" then
    r <- LeonTradeModel.recovery_impulse network_model None
           (script_general_shock_list w) "Spread stimulus" ;;
    Ok (Some r)
  else Ok None.

(** The same widgets with other values in the economy-wide shock panel. *)
Definition with_shock_panel (w : widgets) (checked : bool)
    (percent start_month end_month : Qc) : widgets :=
  {| genshock_checked := checked;
     genshock_percent := percent;
     genshock_start := start_month;
     genshock_end := end_month;
     sectors_n_shocks := sectors_n_shocks w;
     want_recovery := want_recovery w;
     type_recovery := type_recovery w;
     sectors_n_stimuli := sectors_n_stimuli w;
     genstim_percent := genstim_percent w;
     genstim_start := genstim_start w;
     genstim_end := genstim_end w |}.

(** ** The panels of per-sector entries *)

(** A key of the mappings the panels build: a sector label, or the integer
    [0] that the variable of an unused block still holds. *)
Inductive pykey : Type :=
| Name (s : label)
| Zero.

Definition pykey_eqb (a b : pykey) : bool :=
  match a, b with
  | Name s, Name s' => String.eqb s s'
  | Zero, Zero => true
  | _, _ => false
  end.

Definition panel_dict := list (pykey * triple).

Fixpoint panel_get (d : panel_dict) (k : pykey) : option triple :=
  match d with
  | [] => None
  | (k', v) :: r => if pykey_eqb k' k then Some v else panel_get r k
  end.

Fixpoint panel_set (d : panel_dict) (k : pykey) (v : triple) : panel_dict :=
  match d with
  | [] => [(k, v)]
  | (k', v') :: r =>
      if pykey_eqb k' k then (k', v) :: r else (k', v') :: panel_set r k v
  end.

(** A dictionary display [{k1: v1, ..., kn: vn}]: the entries are stored
    left to right, a repeated key keeps its place and takes the later
    value. *)
Definition dict_literal (l : list (pykey * triple)) : panel_dict :=
  fold_left (fun d e => panel_set d (fst e) (snd e)) l [].

(** The widgets of one block of a panel: the sector chosen, the percentage,
    the first and the last month. *)
Record slot : Type := {
  chosen : label;
  percent : Qc;
  first_month : Qc;
  last_month : Qc
}.

(** The five blocks of a panel and the four boxes ['Add another sector'],
    each box shown only when the block before it is. *)
Record panel : Type := {
  slot_1 : slot;
  slot_2 : slot;
  slot_3 : slot;
  slot_4 : slot;
  slot_5 : slot;
  more_2 : bool;
  more_3 : bool;
  more_4 : bool;
  more_5 : bool
}.

(** The four variables of one block: sector, value, start, end. *)
Record slot_vars : Type := {
  var_sector : pykey;
  var_val : Qc;
  var_start : Qc;
  var_end : Qc
}.

(** [sector_i, shock_val_i, start_sector_i, end_sector_i = 0, 0, 0, 0] *)
Definition unset : slot_vars :=
  {| var_sector := Zero; var_val := 0; var_start := 0; var_end := 0 |}.

(** The variables of a block once its widgets were read. *)
Definition read (x : slot) : slot_vars :=
  {| var_sector := Name (chosen x);
     var_val := percent x;
     var_start := first_month x;
     var_end := last_month x |}.

(** [sector_i: (start_sector_i / 12, end_sector_i / 12, shock_val_i / 100)] *)
Definition literal_entry (v : slot_vars) : pykey * triple :=
  (var_sector v,
   (var_start v / LeonTradeModel.twelve, var_end v / LeonTradeModel.twelve,
    var_val v / hundred)).

(** The variables of the five blocks of the shock panel when the mapping is
    built. *)
Definition shock_panel_vars (p : panel) : list slot_vars :=
  read (slot_1 p) ::
  (if more_2 p then
     read (slot_2 p) ::
     (if more_3 p then
        read (slot_3 p) ::
        (if more_4 p then
           read (slot_4 p) ::
           (if more_5 p then [read (slot_5 p)] else [unset])
         else [unset; unset])
      else [unset; unset; unset])
   else [unset; unset; unset; unset]).

(** The same for the targeted stimulus panel.  Its third block stores the
    sector chosen in the variable [rec_2] of the second block; [rec_3] is
    not assigned and keeps its [0]. *)
Definition stimulus_panel_vars (p : panel) : list slot_vars :=
  read (slot_1 p) ::
  (if more_2 p then
     if more_3 p then
       {| var_sector := Name (chosen (slot_3 p));
          var_val := percent (slot_2 p);
          var_start := first_month (slot_2 p);
          var_end := last_month (slot_2 p) |} ::
       {| var_sector := Zero;
          var_val := percent (slot_3 p);
          var_start := first_month (slot_3 p);
          var_end := last_month (slot_3 p) |} ::
       (if more_4 p then
          read (slot_4 p) ::
          (if more_5 p then [read (slot_5 p)] else [unset])
        else [unset; unset])
     else [read (slot_2 p); unset; unset; unset]
   else [unset; unset; unset; unset]).

(** [sectors_n_shocks = {sector_1: ..., ..., sector_5: ...}] *)
Definition panel_sectors_n_shocks (p : panel) : panel_dict :=
  dict_literal (map literal_entry (shock_panel_vars p)).

(** [sectors_n_stimuli = {rec_1: ..., ..., rec_5: ...}] *)
Definition panel_sectors_n_stimuli (p : panel) : panel_dict :=
  dict_literal (map literal_entry (stimulus_panel_vars p)).

(** The entry a block would give its sector. *)
Definition entry_of (x : slot) : triple :=
  (first_month x / LeonTradeModel.twelve, last_month x / LeonTradeModel.twelve,
   percent x / hundred).

(** ** Tactics *)

(** Equality of two closed rationals, by evaluation. *)
Ltac qc_eq := apply Qc_is_canon; reflexivity.

(** Equality of two closed arrays of rationals, entry by entry. *)
Ltac qc_entries :=
  repeat match goal with
         | |- Ok _ = Ok _ => apply f_equal
         | |- cons _ _ = cons _ _ => apply f_equal2
         | |- @eq Qc _ _ => apply Qc_decomp; vm_compute; reflexivity
         | |- @nil _ = @nil _ => reflexivity
         end.

(** Two closed rationals differ, by evaluation. *)
Ltac qc_neq :=
  let H := fresh in
  intro H; apply (f_equal this) in H; vm_compute in H; discriminate H.

(** ** Facts about dictionaries *)

Section DictFacts.

Context {V : Type}.
Implicit Types (d : dict V) (k : label) (v : V).

Lemma dict_get_set d k v k' :
  dict_get (dict_set d k v) k' =
  if String.eqb k k' then Some v else dict_get d k'.
Proof.
  induction d as [|[k0 v0] r IH]; simpl.
  - reflexivity.
  - destruct (String.eqb k0 k) eqn:E0; simpl.
    + apply String.eqb_eq in E0; subst k0.
      destruct (String.eqb k k'); reflexivity.
    + rewrite IH.
      destruct (String.eqb k0 k') eqn:E1; [|reflexivity].
      apply String.eqb_eq in E1; subst k0.
      now rewrite String.eqb_sym, E0.
Qed.

Lemma mem_keys_get d k :
  mem k (keys d) = match dict_get d k with Some _ => true | None => false end.
Proof.
  induction d as [|[k0 v0] r IH]; simpl; [reflexivity|].
  destruct (String.eqb k0 k); simpl; [reflexivity|apply IH].
Qed.

Lemma mem_In k (l : list label) : mem k l = true <-> In k l.
Proof.
  induction l as [|a r IH]; simpl.
  - split; [discriminate|tauto].
  - rewrite orb_true_iff, String.eqb_eq, IH. tauto.
Qed.

(** Assigning one value under every key of a list. *)
Lemma dict_get_fill (l : list label) v d k :
  dict_get (fold_left (fun a s => dict_set a s v) l d) k =
  if mem k l then Some v else dict_get d k.
Proof.
  revert d; induction l as [|a r IH]; intros d; simpl; [reflexivity|].
  rewrite IH, dict_get_set.
  destruct (mem k r); simpl.
  - now rewrite orb_true_r.
  - now rewrite orb_false_r.
Qed.

Lemma dict_get_overlay_keys (src : dict V) (ks : list label) d k :
  dict_get
    (fold_left (fun a k0 => match dict_get src k0 with
                            | Some v => dict_set a k0 v
                            | None => a
                            end) ks d) k =
  match (if mem k ks then dict_get src k else None) with
  | Some v => Some v
  | None => dict_get d k
  end.
Proof.
  revert d; induction ks as [|a r IH]; intros d; simpl; [reflexivity|].
  rewrite IH.
  destruct (mem k r) eqn:Er.
  - rewrite orb_true_r.
    destruct (dict_get src k) eqn:Ek; [reflexivity|].
    destruct (dict_get src a) eqn:Ea; [|reflexivity].
    rewrite dict_get_set.
    destruct (String.eqb a k) eqn:E; [|reflexivity].
    apply String.eqb_eq in E; subst a. congruence.
  - rewrite orb_false_r.
    destruct (String.eqb a k) eqn:E.
    + apply String.eqb_eq in E; subst a.
      destruct (dict_get src k) eqn:Ek; [|reflexivity].
      now rewrite dict_get_set, String.eqb_refl.
    + destruct (dict_get src a) eqn:Ea; [|reflexivity].
      now rewrite dict_get_set, E.
Qed.

(** The overlay loop: the source's entries win, the rest is kept. *)
Lemma dict_get_overlay (acc src : dict V) k :
  dict_get (dict_overlay acc src) k =
  match dict_get src k with
  | Some v => Some v
  | None => dict_get acc k
  end.
Proof.
  unfold dict_overlay. rewrite dict_get_overlay_keys, mem_keys_get.
  destruct (dict_get src k); reflexivity.
Qed.

End DictFacts.

(** ** The model constructor *)

Lemma np_dot_rectangular (M : matrix) (v : vec) :
  rectangular (length v) M = true ->
  np_dot M v = Ok (map (fun row => inner row v) M).
Proof.
  unfold np_dot, rectangular. intros ->. reflexivity.
Qed.

Example two_sector_model_built :
  LeonTradeModel.init two_sector_frame Unit "Upstream" = Ok two_sector_model.
Proof.
  unfold LeonTradeModel.init, two_sector_model. simpl.
  repeat f_equal; qc_eq.
Qed.

(** Construction succeeds when the rows of the frame match the demand
    vector; the attributes it sets. *)
Lemma init_attributes (df : DataFrame) (demand : demand_arg) (type : string) :
  let d := match demand with Unit => ones (df_len df) | Demand v => v end in
  rectangular (length d) (df_values df) = true ->
  exists m,
    LeonTradeModel.init df demand type = Ok m /\
    LeonTradeModel.d_base m = d /\
    LeonTradeModel.x_base m = map (fun row => inner row d) (df_values df) /\
    LeonTradeModel.A m =
      (if String.eqb type "Upstream" then Some (df_values df)
       else if String.eqb type "Downstream" then Some (transpose (df_values df))
       else None).
Proof.
  intros d Hrect. unfold LeonTradeModel.init. fold d.
  rewrite (np_dot_rectangular _ _ Hrect). simpl.
  eexists. split; [reflexivity|]. simpl. repeat split.
Qed.

(** C3 (as amended).  Whatever the direction, construction succeeds on a
    frame with at least one row whose rows match the demand vector and sets
    the baseline output to the product of the matrix as given with the
    demand vector; the direction only selects the matrix [A] kept for the
    dynamics (the matrix itself for upstream, its transpose for
    downstream). *)
Theorem baseline_from_given_matrix (df : DataFrame) (demand : demand_arg)
    (type : string) :
  let d := match demand with Unit => ones (df_len df) | Demand v => v end in
  df_values df <> [] ->
  rectangular (length d) (df_values df) = true ->
  exists m,
    LeonTradeModel.init df demand type = Ok m /\
    LeonTradeModel.d_base m = d /\
    LeonTradeModel.x_base m = map (fun row => inner row d) (df_values df) /\
    LeonTradeModel.A m =
      (if String.eqb type "Upstream" then Some (df_values df)
       else if String.eqb type "Downstream" then Some (transpose (df_values df))
       else None).
Proof.
  intros d _ Hrect. exact (init_attributes df demand type Hrect).
Qed.

Lemma baseline_from_given_matrix_witness :
  exists m,
    LeonTradeModel.init two_sector_frame Unit "Downstream" = Ok m /\
    LeonTradeModel.d_base m = ones 2 /\
    LeonTradeModel.x_base m =
      map (fun row => inner row (ones 2)) (df_values two_sector_frame) /\
    LeonTradeModel.A m = Some (transpose (df_values two_sector_frame)).
Proof.
  apply (baseline_from_given_matrix two_sector_frame Unit "Downstream");
    [discriminate|reflexivity].
Defined.

(** C3 as stated fails: for the downstream direction the baseline is not
    the product of the transpose with the demand vector. *)
Lemma baseline_downstream_not_transposed :
  exists m,
    LeonTradeModel.init two_sector_frame Unit "Downstream" = Ok m /\
    LeonTradeModel.A m = Some (transpose (df_values two_sector_frame)) /\
    np_dot (transpose (df_values two_sector_frame)) (LeonTradeModel.d_base m)
      = Ok [qz 4; qz 6] /\
    LeonTradeModel.x_base m = [qz 3; qz 7] /\
    LeonTradeModel.x_base m <> [qz 4; qz 6].
Proof.
  eexists. split; [reflexivity|]. simpl.
  split; [reflexivity|].
  split; [unfold np_dot; simpl; repeat f_equal; qc_eq|].
  split; [repeat f_equal; qc_eq|].
  intro H. vm_compute in H. discriminate H.
Qed.

(** C10.  With a direction other than ['Upstream'] and ['Downstream'] the
    constructor (on a frame with at least one row whose rows match the
    demand vector) returns a model whose attribute [A] is unset: reading it
    raises [AttributeError], and so does the run that passes it to the
    integrator, whatever the integrator, the shock spec and the grid. *)
Theorem direction_required (df : DataFrame) (demand : demand_arg)
    (type : string) (meth : method) (shock : dict triple) (grid : list Qc) :
  let d := match demand with Unit => ones (df_len df) | Demand v => v end in
  String.eqb type "Upstream" = false ->
  String.eqb type "Downstream" = false ->
  df_values df <> [] ->
  rectangular (length d) (df_values df) = true ->
  exists m,
    LeonTradeModel.init df demand type = Ok m /\
    LeonTradeModel.A m = None /\
    LeonTradeModel.get_A m = Raise AttributeError /\
    run_shock meth m shock grid = Raise AttributeError.
Proof.
  intros d Hu Hd _ Hrect.
  destruct (init_attributes df demand type Hrect)
    as (m & Hinit & _ & _ & HA).
  rewrite Hu, Hd in HA.
  exists m. split; [exact Hinit|]. split; [exact HA|].
  unfold run_shock, LeonTradeModel.get_A. rewrite HA. split; reflexivity.
Qed.

Lemma direction_required_witness :
  exists m,
    LeonTradeModel.init two_sector_frame Unit "Sideways" = Ok m /\
    LeonTradeModel.A m = None /\
    LeonTradeModel.get_A m = Raise AttributeError /\
    run_shock (fun _ _ _ => Yield [1]) m [] [0; 1] = Raise AttributeError.
Proof.
  apply (direction_required two_sector_frame Unit "Sideways");
    [reflexivity|reflexivity|discriminate|reflexivity].
Defined.

(** ** Forcing specs *)

(** The entries of a shock spec: an override if there is one, else the
    economy-wide entry for a sector of the economy, else nothing. *)
Lemma shock_impulse_entries (self : LeonTradeModel.t) (ov : dict triple)
    (g : triple) :
  exists spec,
    LeonTradeModel.shock_impulse self (Some ov) g = Ok spec /\
    forall k,
      dict_get spec k =
      match dict_get ov k with
      | Some x => Some x
      | None => if mem k (LeonTradeModel.sectors self)
                then Some (LeonTradeModel.general_entry g)
                else None
      end.
Proof.
  eexists. split; [reflexivity|]. intros k.
  rewrite dict_get_overlay. unfold LeonTradeModel.fill.
  rewrite dict_get_fill. reflexivity.
Qed.

(** C1 (as amended).  For one percent input [m] and one interval of months,
    an economy-wide shock stores, on every sector without an override, the
    triple (start/12, end/12, m/100): only the months are divided by 12, the
    magnitude is not.  That is the very triple a targeted shock of [m]
    percent stores on its named sector, so the two magnitudes are equal. *)
Theorem shock_magnitude_not_divided (self : LeonTradeModel.t)
    (ov : dict triple) (s e m : Qc) (sector : label) (g : triple) :
  mem sector (LeonTradeModel.sectors self) = true ->
  dict_get ov sector = None ->
  exists wide targeted,
    LeonTradeModel.shock_impulse self (Some ov) (general_shock_list s e m)
      = Ok wide /\
    LeonTradeModel.shock_impulse self
      (Some (dict_set ov sector (sector_shock s e m))) g = Ok targeted /\
    dict_get wide sector
      = Some (s / LeonTradeModel.twelve, e / LeonTradeModel.twelve, m / hundred) /\
    dict_get targeted sector
      = Some (s / LeonTradeModel.twelve, e / LeonTradeModel.twelve, m / hundred).
Proof.
  intros Hmem Hov.
  destruct (shock_impulse_entries self ov (general_shock_list s e m))
    as (wide & Hw & Ew).
  destruct (shock_impulse_entries self (dict_set ov sector (sector_shock s e m)) g)
    as (targeted & Ht & Et).
  exists wide, targeted. repeat split; try assumption.
  - rewrite Ew, Hov, Hmem. reflexivity.
  - rewrite Et, dict_get_set, String.eqb_refl. reflexivity.
Qed.

Lemma shock_magnitude_not_divided_witness :
  exists wide targeted,
    LeonTradeModel.shock_impulse two_sector_model (Some [])
      (general_shock_list 0 (qz 6) (qz 12)) = Ok wide /\
    LeonTradeModel.shock_impulse two_sector_model
      (Some (dict_set [] "S1" (sector_shock 0 (qz 6) (qz 12)))) (0, 0, 0)
      = Ok targeted /\
    dict_get wide "S1"
      = Some (0 / LeonTradeModel.twelve, qz 6 / LeonTradeModel.twelve,
              qz 12 / hundred) /\
    dict_get targeted "S1"
      = Some (0 / LeonTradeModel.twelve, qz 6 / LeonTradeModel.twelve,
              qz 12 / hundred).
Proof.
  apply (shock_magnitude_not_divided two_sector_model [] 0 (qz 6) (qz 12) "S1");
    reflexivity.
Defined.

(** C1 as stated fails: an economy-wide shock of 12 percent does not store
    the magnitude 12/100/12; it stores 12/100, as the targeted shock does. *)
Lemma economy_wide_magnitude_not_a_twelfth :
  exists wide x,
    LeonTradeModel.shock_impulse two_sector_model (Some [])
      (general_shock_list 0 (qz 6) (qz 12)) = Ok wide /\
    dict_get wide "S1" = Some x /\
    magnitude x <> qz 12 / hundred / LeonTradeModel.twelve /\
    magnitude x = magnitude (sector_shock 0 (qz 6) (qz 12)) /\
    magnitude (sector_shock 0 (qz 6) (qz 12))
      <> LeonTradeModel.twelve * magnitude x.
Proof.
  eexists. eexists. split; [reflexivity|]. split; [reflexivity|].
  split; [qc_neq|]. split; [reflexivity|qc_neq].
Qed.

(** C4 (as amended).  Building a shock spec from an overrides mapping never
    fails, whether the names are known or not: every override is stored
    verbatim under its name (a name absent from the economy becomes an extra
    entry), and the other sectors keep the economy-wide entry. *)
Theorem shock_impulse_never_rejects (self : LeonTradeModel.t)
    (ov : dict triple) (g : triple) :
  exists spec,
    LeonTradeModel.shock_impulse self (Some ov) g = Ok spec /\
    forall k,
      dict_get spec k =
      match dict_get ov k with
      | Some x => Some x
      | None => if mem k (LeonTradeModel.sectors self)
                then Some (LeonTradeModel.general_entry g)
                else None
      end.
Proof.
  apply shock_impulse_entries.
Qed.

(** C4 as stated fails: an override on the unknown sector ["X"] is accepted
    and stored. *)
Lemma unknown_sector_accepted :
  mem "X" (LeonTradeModel.sectors two_sector_model) = false /\
  exists spec,
    LeonTradeModel.shock_impulse two_sector_model
      (Some [("X", (0, 1, 1))]) (0, 0, 0) = Ok spec /\
    dict_get spec "X" = Some (0, 1, 1) /\
    length spec = 3%nat.
Proof.
  split; [reflexivity|]. eexists. split; [reflexivity|]. split; reflexivity.
Qed.

(** C9.  Left at its default [None], the overrides argument makes
    [shock_impulse] raise [TypeError] for every model and every economy-wide
    triple; with an empty mapping it returns the defaults-only spec. *)
Theorem shock_impulse_needs_overrides (self : LeonTradeModel.t) (g : triple) :
  LeonTradeModel.shock_impulse self None g = Raise TypeError /\
  exists spec,
    LeonTradeModel.shock_impulse self (Some []) g = Ok spec /\
    forall k,
      dict_get spec k =
      if mem k (LeonTradeModel.sectors self)
      then Some (LeonTradeModel.general_entry g)
      else None.
Proof.
  split; [reflexivity|].
  destruct (shock_impulse_entries self [] g) as (spec & Hs & E).
  exists spec. split; [exact Hs|]. intros k. rewrite E. reflexivity.
Qed.

(** C5 (as amended).  In targeted mode the recovery spec holds the named
    overrides and nothing else, whatever the economy-wide default: a sector
    that is not named has no entry in the returned mapping. *)
Theorem recovery_targeted_entries (self : LeonTradeModel.t)
    (ov : dict triple) (g : triple) :
  exists spec,
    LeonTradeModel.recovery_impulse self (Some ov) g "Target sector(s)"
      = Ok spec /\
    forall k, dict_get spec k = dict_get ov k.
Proof.
  eexists. split; [reflexivity|]. intros k.
  rewrite dict_get_overlay. simpl. destruct (dict_get ov k); reflexivity.
Qed.

(** C5 as stated fails: the sector ["S1"], not named by the overrides, gets
    no zero triple, and the mapping has one entry for two sectors. *)
Lemma unnamed_sector_has_no_entry :
  exists spec,
    LeonTradeModel.recovery_impulse two_sector_model
      (Some [("S2", (0, 1, 1))]) (0, 0, 0) "Target sector(s)" = Ok spec /\
    mem "S1" (LeonTradeModel.sectors two_sector_model) = true /\
    dict_get spec "S1" = None /\
    dict_get spec "S1" <> Some (0, 0, 0) /\
    length spec = 1%nat /\
    length (LeonTradeModel.sectors two_sector_model) = 2%nat.
Proof.
  eexists. split; [reflexivity|]. simpl.
  repeat split; try reflexivity. discriminate.
Qed.

(** ** Forcing evaluated at a time *)

Lemma active_true_iff (t : Qc) (x : triple) :
  active t x = true <-> t_start x <= t /\ t <= t_end x.
Proof.
  unfold active, qleb. rewrite andb_true_iff, !Qle_bool_iff. reflexivity.
Qed.

Lemma active_false_iff (t : Qc) (x : triple) :
  active t x = false <-> t < t_start x \/ t_end x < t.
Proof.
  rewrite <- not_true_iff_false, active_true_iff. split.
  - intros H.
    destruct (Qclt_le_dec t (t_start x)) as [Hl|Hl]; [now left|].
    destruct (Qclt_le_dec (t_end x) t) as [Hr|Hr]; [now right|].
    exfalso. apply H. split; assumption.
  - intros [H|H] [H1 H2].
    + exact (Qclt_not_le _ _ H H1).
    + exact (Qclt_not_le _ _ H H2).
Qed.

Lemma series_set_known (s : series) (k : label) (v : Qc) :
  mem k (s_index s) = true ->
  series_set s k v =
  map (fun e => if String.eqb (fst e) k then (fst e, v) else e) s.
Proof.
  unfold series_set. intros ->. reflexivity.
Qed.

Lemma s_index_forced (t : Qc) (spec : dict triple) (s : series) :
  s_index (map (forced t spec) s) = s_index s.
Proof.
  unfold s_index. rewrite map_map. reflexivity.
Qed.

(** The forcing loop, entry by entry: on a spec with unique keys that are all
    labels of the Series, every label is set at most once. *)
Lemma apply_forcing_entries (t : Qc) (spec : dict triple) (s : series) :
  dict_wf spec = true ->
  forallb (fun k => mem k (s_index s)) (keys spec) = true ->
  apply_forcing t spec s = map (forced t spec) s.
Proof.
  revert s. induction spec as [|[k x] r IH]; intros s Hwf Hknown.
  - simpl. unfold forced. simpl. rewrite <- (map_id s) at 1.
    apply map_ext. intros [a b]. reflexivity.
  - unfold dict_wf in Hwf. simpl in Hwf, Hknown.
    apply andb_true_iff in Hwf as [Hfresh Hwf].
    apply andb_true_iff in Hknown as [Hk Hknown].
    apply negb_true_iff in Hfresh.
    assert (Hnone : dict_get r k = None).
    { rewrite mem_keys_get in Hfresh. destruct (dict_get r k); [discriminate|reflexivity]. }
    change (apply_forcing t ((k, x) :: r) s)
      with (apply_forcing t r
              (if active t x then series_set s k (magnitude x) else s)).
    destruct (active t x) eqn:Hact.
    + rewrite (series_set_known s k _ Hk).
      rewrite IH; [|exact Hwf|].
      * rewrite map_map. apply map_ext. intros [a b]. unfold forced. simpl.
        rewrite (String.eqb_sym k a).
        destruct (String.eqb a k) eqn:E; simpl.
        -- apply String.eqb_eq in E; subst a. now rewrite Hnone, Hact.
        -- reflexivity.
      * replace (s_index (map _ s)) with (s_index s); [exact Hknown|].
        unfold s_index. rewrite map_map. apply map_ext.
        intros [a b]. simpl. destruct (String.eqb a k); reflexivity.
    + rewrite IH by assumption.
      apply map_ext. intros [a b]. unfold forced. simpl.
      rewrite (String.eqb_sym k a).
      destruct (String.eqb a k) eqn:E; simpl; [|reflexivity].
      apply String.eqb_eq in E; subst a. now rewrite Hnone, Hact.
Qed.

Lemma dict_get_forced (t : Qc) (spec : dict triple) (s : series) (k : label) :
  dict_get (map (forced t spec) s) k =
  match dict_get s k with
  | Some v => Some (snd (forced t spec (k, v)))
  | None => None
  end.
Proof.
  induction s as [|[a b] r IH]; simpl; [reflexivity|].
  destruct (String.eqb a k) eqn:E; [|exact IH].
  apply String.eqb_eq in E; subst a. reflexivity.
Qed.

Lemma new_series_ok (n : nat) (index : list label) :
  length index = n ->
  new_series (zeros n) index = Ok (combine index (zeros n)).
Proof.
  intros H. unfold new_series, zeros. rewrite repeat_length, H, Nat.eqb_refl.
  reflexivity.
Qed.

Lemma new_series_inv (n : nat) (index : list label) (s : series) :
  new_series (zeros n) index = Ok s ->
  length index = n /\ s = combine index (zeros n).
Proof.
  unfold new_series, zeros. rewrite repeat_length.
  destruct (Nat.eqb n (length index)) eqn:E; [|discriminate].
  apply Nat.eqb_eq in E. intros H; injection H as <-. split; [now symmetry|reflexivity].
Qed.

Lemma s_index_fresh (n : nat) (index : list label) :
  length index = n -> s_index (combine index (zeros n)) = index.
Proof.
  intros <-. unfold s_index, zeros.
  induction index as [|a r IH]; simpl; [reflexivity|]. now rewrite IH.
Qed.

Lemma dict_get_fresh (n : nat) (index : list label) (k : label) :
  length index = n -> mem k index = true ->
  dict_get (combine index (zeros n)) k = Some 0.
Proof.
  intros <-. unfold zeros.
  induction index as [|a r IH]; simpl; [discriminate|].
  destruct (String.eqb a k); simpl; [reflexivity|exact IH].
Qed.

Lemma names_known_get (sectors : list label) (spec : dict triple)
    (k : label) (x : triple) :
  names_known sectors spec = true -> dict_get spec k = Some x ->
  mem k sectors = true.
Proof.
  unfold names_known. rewrite forallb_forall. intros H Hk.
  apply H. apply mem_In. rewrite mem_keys_get, Hk. reflexivity.
Qed.

(** C6.  For an entry (start, end, magnitude) of a forcing spec on a sector,
    the Series filled by the forcing loop at time [t] holds, for that
    sector, the magnitude when the entry is active and 0 when it is not;
    the entry is active exactly when start <= t <= end (both ends included)
    and inactive exactly when t < start or end < t. *)
Theorem forcing_interval_closed (t : Qc) (spec : dict triple)
    (sectors : list label) (n : nat) (s0 : series) (sector : label)
    (x : triple) :
  dict_wf spec = true ->
  names_known sectors spec = true ->
  new_series (zeros n) sectors = Ok s0 ->
  dict_get spec sector = Some x ->
  series_get (apply_forcing t spec s0) sector
    = Some (if active t x then magnitude x else 0) /\
  (active t x = true <-> t_start x <= t /\ t <= t_end x) /\
  (active t x = false <-> t < t_start x \/ t_end x < t).
Proof.
  intros Hwf Hknown Hs0 Hx.
  apply new_series_inv in Hs0 as [Hlen ->].
  split; [|split; [apply active_true_iff|apply active_false_iff]].
  unfold series_get.
  rewrite apply_forcing_entries;
    [|exact Hwf|rewrite (s_index_fresh _ _ Hlen); exact Hknown].
  rewrite dict_get_forced.
  rewrite (dict_get_fresh _ _ _ Hlen (names_known_get _ _ _ _ Hknown Hx)).
  unfold forced. simpl. rewrite Hx. reflexivity.
Qed.

Lemma forcing_interval_closed_witness :
  series_get (apply_forcing half [("S1", (0, half, 1))] [("S1", 0); ("S2", 0)])
             "S1"
    = Some (if active half (0, half, 1) then magnitude (0, half, 1) else 0) /\
  (active half (0, half, 1) = true
   <-> t_start (0, half, 1) <= half /\ half <= t_end (0, half, 1)) /\
  (active half (0, half, 1) = false
   <-> half < t_start (0, half, 1) \/ t_end (0, half, 1) < half).
Proof.
  apply (forcing_interval_closed half [("S1", (0, half, 1))] ["S1"; "S2"] 2);
    reflexivity.
Defined.

(** ** Lists as tables *)

Section ListFacts.

Context {T : Type}.

Lemma list_as_table (d : T) (l : list T) :
  l = map (fun j => nth j l d) (seq 0 (length l)).
Proof.
  induction l as [|a r IH]; simpl; [reflexivity|].
  f_equal. rewrite <- seq_shift, map_map. exact IH.
Qed.

Lemma zip_with_map {U V W : Type} (f : U -> V -> W) (g : T -> U) (h : T -> V)
    (l : list T) :
  zip_with f (map g l) (map h l) = map (fun x => f (g x) (h x)) l.
Proof.
  induction l as [|a r IH]; simpl; [reflexivity|]. now rewrite IH.
Qed.

Lemma zip_with_length {U V : Type} (f : T -> U -> V) (l1 : list T)
    (l2 : list U) :
  length l1 = length l2 -> length (zip_with f l1 l2) = length l1.
Proof.
  revert l2; induction l1 as [|a r IH]; intros [|b l2]; simpl;
    try discriminate; [reflexivity|].
  intros H. f_equal. apply IH. now injection H.
Qed.

Lemma forallb_map_all {U : Type} (p : U -> bool) (g : T -> U) (l : list T) :
  (forall x, p (g x) = true) -> forallb p (map g l) = true.
Proof.
  intros H. induction l as [|a r IH]; simpl; [reflexivity|].
  now rewrite H, IH.
Qed.

End ListFacts.

Lemma nth_delta_row (i j n : nat) :
  (j < n)%nat -> nth j (map (fun c => delta i c) (seq 0 n)) 0 = delta i j.
Proof.
  intros Hj.
  rewrite (nth_indep _ 0 (delta i 0)) by (now rewrite length_map, length_seq).
  rewrite (map_nth (fun c => delta i c)), seq_nth by exact Hj. reflexivity.
Qed.

Lemma square_rows (n : nat) (A : matrix) :
  square n A = true ->
  length A = n /\ forall i, (i < n)%nat -> length (nth i A []) = n.
Proof.
  unfold square. rewrite andb_true_iff, Nat.eqb_eq, forallb_forall.
  intros [Hlen Hrows]. split; [exact Hlen|].
  intros i Hi. apply Nat.eqb_eq, Hrows, nth_In. now rewrite Hlen.
Qed.

Lemma same_shape_eye (n : nat) (A : matrix) :
  square n A = true -> same_shape A (np_eye n) = true.
Proof.
  unfold square, np_eye. rewrite andb_true_iff, Nat.eqb_eq.
  intros [Hlen Hrows]. revert Hrows.
  assert (Hgen : forall (l : list nat), length A = length l ->
            forallb (fun row => Nat.eqb (length row) n) A = true ->
            same_shape A (map (fun i => map (fun j => delta i j) (seq 0 n)) l)
            = true).
  { clear Hlen. induction A as [|row A' IH]; intros [|i l]; simpl;
      try discriminate; [reflexivity|].
    intros Hl Hr. apply andb_true_iff in Hr as [Hrow Hr].
    rewrite length_map, length_seq, Hrow. simpl.
    apply IH; [now injection Hl|exact Hr]. }
  apply Hgen. now rewrite length_seq.
Qed.

(** [A - np.eye(n)] row by row, entry by entry. *)
Lemma sub_eye_table (n : nat) (A : matrix) :
  square n A = true ->
  zip_with (zip_with Qcminus) A (np_eye n) =
  map (fun i => map (fun j => nth j (nth i A []) 0 - delta i j) (seq 0 n))
      (seq 0 n).
Proof.
  intros Hsq. destruct (square_rows n A Hsq) as [Hlen Hrows].
  pose proof (list_as_table (T := vec) [] A) as EA. rewrite Hlen in EA.
  transitivity (zip_with (zip_with Qcminus)
                         (map (fun i => nth i A []) (seq 0 n)) (np_eye n)).
  { f_equal. exact EA. }
  unfold np_eye. rewrite zip_with_map. apply map_ext_in. intros i Hi.
  apply in_seq in Hi. destruct Hi as [_ Hi]. simpl in Hi.
  pose proof (list_as_table (T := Qc) 0 (nth i A [])) as Er. rewrite (Hrows i Hi) in Er.
  transitivity (zip_with Qcminus
                         (map (fun j => nth j (nth i A []) 0) (seq 0 n))
                         (map (fun j => delta i j) (seq 0 n))).
  { f_equal. exact Er. }
  apply zip_with_map.
Qed.

Lemma inner_table (n : nat) (g : nat -> Qc) (y : vec) :
  length y = n ->
  inner (map g (seq 0 n)) y = vsum (map (fun j => g j * nth j y 0) (seq 0 n)).
Proof.
  intros Hy. unfold inner.
  pose proof (list_as_table (T := Qc) 0 y) as Ey. rewrite Hy in Ey.
  transitivity (vsum (zip_with Qcmult (map g (seq 0 n))
                               (map (fun j => nth j y 0) (seq 0 n)))).
  { do 2 f_equal. exact Ey. }
  rewrite zip_with_map. reflexivity.
Qed.

(** The linear part [np.dot(A - np.eye(n), y)] of both right-hand sides. *)
Lemma relaxation_table (n : nat) (A : matrix) (y : vec) :
  square n A = true -> length y = n ->
  exists M,
    np_sub A (np_eye (length A)) = Ok M /\
    np_dot M y =
    Ok (map (fun i =>
               vsum (map (fun j => (nth j (nth i A []) 0 - delta i j) * nth j y 0)
                         (seq 0 n)))
            (seq 0 n)).
Proof.
  intros Hsq Hy. destruct (square_rows n A Hsq) as [Hlen _].
  eexists. split.
  - unfold np_sub. rewrite Hlen, (same_shape_eye n A Hsq). reflexivity.
  - rewrite (sub_eye_table n A Hsq). unfold np_dot.
    rewrite forallb_map_all.
    + rewrite map_map. f_equal. apply map_ext. intros i.
      apply (inner_table n (fun j => nth j (nth i A []) 0 - delta i j) y Hy).
    + intros i. rewrite length_map, length_seq, Hy. apply Nat.eqb_refl.
Qed.

Lemma evaluate_length (spec : dict triple) (t : Qc) (sectors : list label) :
  length (evaluate spec t sectors) = length sectors.
Proof.
  unfold evaluate. apply length_map.
Qed.

(** The values of a freshly forced Series are the design's [evaluate]. *)
Lemma forcing_values (t : Qc) (spec : dict triple) (sectors : list label)
    (n : nat) :
  dict_wf spec = true -> names_known sectors spec = true ->
  length sectors = n ->
  s_values (apply_forcing t spec (combine sectors (zeros n)))
  = evaluate spec t sectors.
Proof.
  intros Hwf Hknown Hlen.
  rewrite apply_forcing_entries;
    [|exact Hwf|rewrite (s_index_fresh _ _ Hlen); exact Hknown].
  unfold s_values, evaluate, zeros. rewrite map_map. subst n. clear.
  induction sectors as [|a r IH]; [reflexivity|].
  cbn [length repeat combine map]. f_equal. exact IH.
Qed.

Lemma np_add_table (n : nat) (g : nat -> Qc) (v : vec) :
  length v = n ->
  np_add (map g (seq 0 n)) v = Ok (map (fun i => g i + nth i v 0) (seq 0 n)).
Proof.
  intros Hv. unfold np_add.
  rewrite length_map, length_seq, Hv, Nat.eqb_refl.
  pose proof (list_as_table (T := Qc) 0 v) as Ev. rewrite Hv in Ev.
  f_equal.
  transitivity (zip_with Qcplus (map g (seq 0 n))
                         (map (fun i => nth i v 0) (seq 0 n))).
  { f_equal. exact Ev. }
  apply zip_with_map.
Qed.

Lemma nth_zip_plus (u v : vec) (i : nat) :
  length u = length v -> (i < length u)%nat ->
  nth i (zip_with Qcplus u v) 0 = nth i u 0 + nth i v 0.
Proof.
  revert v i. induction u as [|a r IH]; intros [|b v] i Hl Hi; simpl in *;
    try discriminate; [lia|].
  destruct i as [|i]; [reflexivity|].
  apply IH; [now injection Hl|lia].
Qed.

(** Both right-hand sides on well-shaped inputs. *)
Lemma dynamics_values (y : vec) (t : Qc) (A : matrix)
    (sectors : list label) (shock recovery : dict triple) (n : nat) :
  square n A = true ->
  length y = n ->
  length sectors = n ->
  dict_wf shock = true -> names_known sectors shock = true ->
  dict_wf recovery = true -> names_known sectors recovery = true ->
  economic_dynamics_ode y t A sectors shock
    = Ok (propagation_law A y (evaluate shock t sectors)) /\
  economic_dynamics_ode_rec y t A sectors shock recovery
    = Ok (propagation_law A y
            (zip_with Qcplus (evaluate shock t sectors)
                             (evaluate recovery t sectors))).
Proof.
  intros Hsq Hy Hsec Hws Hks Hwr Hkr.
  destruct (square_rows n A Hsq) as [Hlen _].
  destruct (relaxation_table n A y Hsq Hy) as (M & HM & Hdot).
  assert (Hes : length (evaluate shock t sectors) = n)
    by (now rewrite evaluate_length).
  assert (Her : length (evaluate recovery t sectors) = n)
    by (now rewrite evaluate_length).
  unfold economic_dynamics_ode, economic_dynamics_ode_rec, propagation_law.
  rewrite HM, Hlen, (new_series_ok n sectors Hsec). simpl.
  rewrite Hdot. simpl.
  rewrite !forcing_values by assumption.
  rewrite np_add_table by exact Hes. split; [reflexivity|]. simpl.
  rewrite np_add_table by exact Her. f_equal.
  apply map_ext_in. intros i Hi. apply in_seq in Hi. destruct Hi as [_ Hi].
  simpl in Hi.
  rewrite nth_zip_plus by (rewrite ?Hes, ?Her; auto).
  apply eq_sym, Qcplus_assoc.
Qed.

(** C2.  On a square matrix [A] of the dimension of the state and of the
    sector list, and forcing specs whose keys are distinct sectors, the value
    of the right-hand side is [(A - I) y + shock(t)] without a recovery spec
    and [(A - I) y + shock(t) + recovery(t)] with one, where [I] is the
    identity of [A]'s dimension and the forcing vectors are the
    piecewise-constant ones of the design evaluated at [t]. *)
Theorem dynamics_follow_law (y : vec) (t : Qc) (A : matrix)
    (sectors : list label) (shock recovery : dict triple) (n : nat) :
  square n A = true ->
  length y = n ->
  length sectors = n ->
  dict_wf shock = true -> names_known sectors shock = true ->
  dict_wf recovery = true -> names_known sectors recovery = true ->
  economic_dynamics_ode y t A sectors shock
    = Ok (propagation_law A y (evaluate shock t sectors)) /\
  economic_dynamics_ode_rec y t A sectors shock recovery
    = Ok (propagation_law A y
            (zip_with Qcplus (evaluate shock t sectors)
                             (evaluate recovery t sectors))).
Proof.
  intros Hsq Hy Hsec Hws Hks Hwr Hkr.
  exact (dynamics_values y t A sectors shock recovery n
           Hsq Hy Hsec Hws Hks Hwr Hkr).
Qed.

Lemma dynamics_follow_law_witness :
  economic_dynamics_ode [1; 1] 0 [[qz 1; qz 2]; [qz 3; qz 4]] ["S1"; "S2"]
                        [("S2", (0, half, 1))]
    = Ok (propagation_law [[qz 1; qz 2]; [qz 3; qz 4]] [1; 1]
            (evaluate [("S2", (0, half, 1))] 0 ["S1"; "S2"])) /\
  economic_dynamics_ode_rec [1; 1] 0 [[qz 1; qz 2]; [qz 3; qz 4]] ["S1"; "S2"]
                            [("S2", (0, half, 1))] [("S1", (0, 1, half))]
    = Ok (propagation_law [[qz 1; qz 2]; [qz 3; qz 4]] [1; 1]
            (zip_with Qcplus
               (evaluate [("S2", (0, half, 1))] 0 ["S1"; "S2"])
               (evaluate [("S1", (0, 1, half))] 0 ["S1"; "S2"]))).
Proof.
  apply (dynamics_follow_law [1; 1] 0 [[qz 1; qz 2]; [qz 3; qz 4]]
           ["S1"; "S2"] [("S2", (0, half, 1))] [("S1", (0, 1, half))] 2);
    reflexivity.
Defined.

(** ** Quadrature is additive in the samples *)

Lemma vsum_from (l : vec) (a : Qc) : fold_left Qcplus l a = a + vsum l.
Proof.
  unfold vsum. revert a. induction l as [|b r IH]; intros a; simpl.
  - now rewrite Qcplus_0_r.
  - rewrite (IH (a + b)), (IH (0 + b)). ring.
Qed.

Lemma vsum_cons (a : Qc) (l : vec) : vsum (a :: l) = a + vsum l.
Proof.
  unfold vsum at 1. simpl. rewrite vsum_from. ring.
Qed.

Lemma vsum_snoc (l : vec) (a : Qc) : vsum (l ++ [a]) = vsum l + a.
Proof.
  unfold vsum. rewrite fold_left_app. reflexivity.
Qed.

Section MapSlices.

Context {T U : Type} (g : T -> U).

Lemma stride2_map (l : list T) : stride2 (map g l) = map g (stride2 l).
Proof.
  assert (H : stride2 (map g l) = map g (stride2 l) /\
              forall a, stride2 (map g (a :: l)) = map g (stride2 (a :: l))).
  { induction l as [|b r [IH1 IH2]].
    - split; [reflexivity|intros a; reflexivity].
    - split; [apply IH2|]. intros a. simpl. f_equal. exact IH1. }
  exact (proj1 H).
Qed.

(** Slicing commutes with an elementwise map. *)
Lemma slice2_map (a b : Z) (l : list T) :
  slice2 a b (map g l) = map g (slice2 a b l).
Proof.
  unfold slice2. rewrite length_map, skipn_map, firstn_map.
  apply stride2_map.
Qed.

Lemma nth_map_default (d : T) (e : U) (i : nat) (l : list T) :
  g d = e -> nth i (map g l) e = g (nth i l d).
Proof.
  intros <-. apply map_nth.
Qed.

End MapSlices.

Lemma simps_term_add (a a' b b' c c' p q : Qc) :
  simps_term (a + a') (b + b') (c + c') p q
  = simps_term a b c p q + simps_term a' b' c' p q.
Proof.
  unfold simps_term, Qcdiv. ring.
Qed.

Lemma simps_terms_pairs (l0 l1 l2 : list (Qc * Qc)) (h0 h1 : vec) :
  vsum (simps_terms (map both l0) (map both l1) (map both l2) h0 h1)
  = vsum (simps_terms (map fst l0) (map fst l1) (map fst l2) h0 h1)
    + vsum (simps_terms (map snd l0) (map snd l1) (map snd l2) h0 h1).
Proof.
  revert l1 l2 h0 h1.
  induction l0 as [|[a a'] l0 IH]; intros l1 l2 h0 h1.
  - simpl. unfold vsum. simpl. ring.
  - destruct l1 as [|[b b'] l1], l2 as [|[c c'] l2], h0 as [|p h0],
             h1 as [|q h1]; simpl;
      try (unfold vsum; simpl; ring).
    rewrite !vsum_cons, IH. unfold both. simpl.
    rewrite simps_term_add. ring.
Qed.

Lemma basic_simps_pairs (l : list (Qc * Qc)) (start stop : Z) (x : vec) :
  basic_simps (map both l) start stop x
  = basic_simps (map fst l) start stop x + basic_simps (map snd l) start stop x.
Proof.
  unfold basic_simps. rewrite !slice2_map. apply simps_terms_pairs.
Qed.

(** Simpson's rule of a sum of two sample columns. *)
Lemma simps_pairs (l : list (Qc * Qc)) (x : vec) (a b : Qc) :
  simps (map fst l) x = Ok a ->
  simps (map snd l) x = Ok b ->
  simps (map both l) x = Ok (a + b).
Proof.
  unfold simps. rewrite !length_map.
  destruct (negb (Nat.eqb (length x) (length l))); [discriminate|].
  destruct (Nat.even (length l)).
  - destruct (Nat.eqb (length l) 0); [discriminate|].
    intros Ha Hb. injection Ha as <-. injection Hb as <-. f_equal.
    rewrite !basic_simps_pairs.
    rewrite !(nth_map_default both (0, 0) 0) by (unfold both; simpl; ring).
    rewrite !(nth_map_default fst (0, 0) 0) by reflexivity.
    rewrite !(nth_map_default snd (0, 0) 0) by reflexivity.
    unfold both, Qcdiv. ring.
  - intros Ha Hb. injection Ha as <-. injection Hb as <-. f_equal.
    apply basic_simps_pairs.
Qed.

Lemma combine_fst (u v : vec) :
  length u = length v -> map fst (combine u v) = u.
Proof.
  revert v. induction u as [|a u IH]; intros [|b v] H; simpl in *;
    try discriminate; [reflexivity|].
  f_equal. apply IH. now injection H.
Qed.

Lemma combine_snd (u v : vec) :
  length u = length v -> map snd (combine u v) = v.
Proof.
  revert v. induction u as [|a u IH]; intros [|b v] H; simpl in *;
    try discriminate; [reflexivity|].
  f_equal. apply IH. now injection H.
Qed.

Lemma combine_both (u v : vec) :
  map both (combine u v) = zip_with Qcplus u v.
Proof.
  revert v. induction u as [|a u IH]; intros [|b v]; simpl;
    try reflexivity.
  now rewrite IH.
Qed.

(** Additivity of [simps] in the samples, for columns of one length. *)
Lemma simps_add (y1 y2 x : vec) (a b : Qc) :
  length y1 = length y2 ->
  simps y1 x = Ok a -> simps y2 x = Ok b ->
  simps (zip_with Qcplus y1 y2) x = Ok (a + b).
Proof.
  intros Hl Ha Hb.
  rewrite <- combine_both. apply simps_pairs.
  - now rewrite combine_fst.
  - now rewrite combine_snd.
Qed.

(** On a grid that matches the samples, [simps] returns. *)
Lemma simps_total (y x : vec) :
  length x = length y -> (0 < length y)%nat -> exists a, simps y x = Ok a.
Proof.
  intros Hl Hpos. unfold simps. rewrite Hl, Nat.eqb_refl. simpl.
  destruct (Nat.even (length y)); [|eexists; reflexivity].
  destruct (Nat.eqb (length y) 0) eqn:E.
  - apply Nat.eqb_eq in E. lia.
  - eexists; reflexivity.
Qed.

Lemma zeros_plus_zeros (n : nat) : zip_with Qcplus (zeros n) (zeros n) = zeros n.
Proof.
  unfold zeros. induction n as [|n IH]; simpl; [reflexivity|].
  rewrite IH, Qcplus_0_l. reflexivity.
Qed.

Lemma simps_zeros (x : vec) :
  (0 < length x)%nat -> simps (zeros (length x)) x = Ok 0.
Proof.
  intros Hpos.
  assert (Hz : length (zeros (length x)) = length x)
    by (unfold zeros; apply repeat_length).
  destruct (simps_total (zeros (length x)) x) as [a Ha];
    [now rewrite Hz|now rewrite Hz|].
  pose proof (simps_add _ _ x a a eq_refl Ha Ha) as H.
  rewrite zeros_plus_zeros, Ha in H. injection H as H.
  rewrite Ha. f_equal.
  assert (Hd : a + a - a = a - a) by (rewrite <- H; reflexivity).
  transitivity (a + a - a); [ring|]. rewrite Hd. ring.
Qed.

(** ** Total output loss *)

Section Loss.

Variables (sol : matrix) (time_vec : vec) (c : nat).
Hypothesis Hrect : rectangular c sol = true.
Hypothesis Hgrid : length time_vec = length sol.
Hypothesis Hrows : (0 < length sol)%nat.

Lemma column_length (i : nat) : length (column i sol) = length sol.
Proof. unfold column. apply length_map. Qed.

Lemma column_loss_ok (i : nat) :
  simps (column i sol) time_vec = Ok (column_loss sol time_vec i).
Proof.
  unfold column_loss.
  destruct (simps_total (column i sol) time_vec) as [a Ha].
  - now rewrite column_length.
  - now rewrite column_length.
  - now rewrite Ha.
Qed.

Lemma ncols_rect : ncols sol = c.
Proof.
  unfold ncols. destruct sol as [|row rest]; simpl in *; [lia|].
  apply andb_true_iff in Hrect as [Hrow _]. now apply Nat.eqb_eq.
Qed.

(** The scalar loop adds up the column quadratures, left to right. *)
Lemma scalar_loop_sum (l : list nat) (a : Qc) :
  fold_left (add_column_loss sol time_vec) l (Ok a)
  = Ok (fold_left (fun acc n => acc + column_loss sol time_vec n) l a).
Proof.
  revert a. induction l as [|n l IH]; intros a; [reflexivity|].
  cbn [fold_left].
  replace (add_column_loss sol time_vec (Ok a) n)
    with (Ok (A := Qc) (a + column_loss sol time_vec n));
    [apply IH|].
  unfold add_column_loss. simpl. now rewrite column_loss_ok.
Qed.

Lemma vsum_firstn_succ (k : nat) (row : vec) :
  (k < length row)%nat ->
  vsum (firstn (S k) row) = vsum (firstn k row) + nth k row 0.
Proof.
  revert k. induction row as [|a row IH]; intros k Hk; simpl in Hk; [lia|].
  destruct k as [|k].
  - simpl. unfold vsum. simpl. ring.
  - change (firstn (S (S k)) (a :: row)) with (a :: firstn (S k) row).
    change (firstn (S k) (a :: row)) with (a :: firstn k row).
    rewrite !vsum_cons, IH by lia. simpl. ring.
Qed.

(** Row sums over the first [k] columns. *)
Lemma partial_sums_succ (k : nat) :
  (k < c)%nat ->
  map (fun row => vsum (firstn (S k) row)) sol
  = zip_with Qcplus (map (fun row => vsum (firstn k row)) sol) (column k sol).
Proof.
  intros Hk. unfold column. rewrite zip_with_map.
  apply map_ext_in. intros row Hin. apply vsum_firstn_succ.
  unfold rectangular in Hrect. rewrite forallb_forall in Hrect.
  specialize (Hrect row Hin). apply Nat.eqb_eq in Hrect. lia.
Qed.

(** After [k] passes the scalar loop holds the quadrature of the row sums
    over the first [k] columns. *)
Lemma scalar_loop_partial (k : nat) :
  (k <= c)%nat ->
  fold_left (add_column_loss sol time_vec) (seq 0 k) (Ok 0)
  = simps (map (fun row => vsum (firstn k row)) sol) time_vec.
Proof.
  induction k as [|k IH]; intros Hk.
  - simpl. transitivity (simps (zeros (length time_vec)) time_vec).
    { symmetry. apply simps_zeros. lia. }
    f_equal. rewrite Hgrid. unfold zeros. clear.
    induction sol as [|r s IH]; simpl; [reflexivity|]. f_equal. exact IH.
  - rewrite seq_S, fold_left_app, IH by lia.
    change (0 + k)%nat with k. cbn [fold_left].
    destruct (simps_total (map (fun row => vsum (firstn k row)) sol) time_vec)
      as [a Ha]; [now rewrite length_map|now rewrite length_map|].
    rewrite Ha. unfold add_column_loss. cbn [fold_left bind].
    rewrite column_loss_ok. cbn [bind].
    rewrite partial_sums_succ by lia. symmetry.
    apply simps_add; [|exact Ha|apply column_loss_ok].
    now rewrite length_map, column_length.
Qed.

Lemma partial_sums_all : map (fun row => vsum (firstn c row)) sol = row_sums sol.
Proof.
  unfold row_sums. apply map_ext_in. intros row Hin.
  unfold rectangular in Hrect. rewrite forallb_forall in Hrect.
  specialize (Hrect row Hin). apply Nat.eqb_eq in Hrect.
  rewrite <- Hrect, firstn_all. reflexivity.
Qed.

(** The per-sector loop over the labels [ls]: every label met gets its
    quadrature. *)
Lemma sector_loop_entries (labels ls : list label) (s : series) :
  (forall n, In n ls -> mem n (s_index s) = true) ->
  fold_left (set_sector_loss sol time_vec labels) ls (Ok s)
  = Ok (map (fun e =>
               (fst e,
                if mem (fst e) ls
                then column_loss sol time_vec (index_of (fst e) labels)
                else snd e)) s).
Proof.
  revert s. induction ls as [|n ls IH]; intros s Hin.
  - simpl. f_equal. rewrite <- (map_id s) at 1.
    apply map_ext. intros [a b]; reflexivity.
  - cbn [fold_left].
    replace (set_sector_loss sol time_vec labels (Ok s) n)
      with (Ok (series_set s n (column_loss sol time_vec (index_of n labels))));
      [|unfold set_sector_loss, loc_column; simpl; now rewrite column_loss_ok].
    rewrite series_set_known by (apply Hin; now left).
    rewrite IH.
    + f_equal. rewrite map_map. apply map_ext. intros [k v]. simpl.
      rewrite (String.eqb_sym n k).
      destruct (String.eqb k n) eqn:E; simpl; [|reflexivity].
      apply String.eqb_eq in E; subst k.
      destruct (mem n ls); reflexivity.
    + intros m Hm.
      replace (s_index (map _ s)) with (s_index s); [apply Hin; now right|].
      unfold s_index. rewrite map_map. apply map_ext.
      intros [a b]. simpl. destruct (String.eqb a n); reflexivity.
Qed.

End Loss.

Lemma index_of_nth (l : list label) (i : nat) :
  nodupb l = true -> (i < length l)%nat -> index_of (nth i l "") l = i.
Proof.
  revert i. induction l as [|a r IH]; intros i Hnd Hi; simpl in *; [lia|].
  apply andb_true_iff in Hnd as [Ha Hnd]. apply negb_true_iff in Ha.
  destruct i as [|i]; [now rewrite String.eqb_refl|].
  destruct (String.eqb a (nth i r "")) eqn:E.
  - apply String.eqb_eq in E. exfalso.
    assert (Hin : mem a r = true)
      by (apply mem_In; rewrite E; apply nth_In; lia).
    congruence.
  - f_equal. apply IH; [exact Hnd|lia].
Qed.

Lemma filled_values (F : label -> Qc) (L l : list label) :
  (forall n, In n l -> mem n L = true) ->
  s_values (map (fun e => (fst e, if mem (fst e) L then F (fst e) else snd e))
                (combine l (zeros (length l))))
  = map F l.
Proof.
  unfold s_values, zeros. induction l as [|a r IH]; intros Hin;
    [reflexivity|].
  cbn [length repeat combine map fst snd].
  rewrite (Hin a) by now left. f_equal. apply IH.
  intros n Hn. apply Hin. now right.
Qed.

Lemma filled_index (G : label * Qc -> Qc) (l : list label) (n : nat) :
  length l = n ->
  s_index (map (fun e => (fst e, G e)) (combine l (zeros n))) = l.
Proof.
  intros Hl. unfold s_index. rewrite map_map. simpl.
  exact (s_index_fresh n l Hl).
Qed.

Lemma vsum_map_fold (q : nat -> Qc) (l : list nat) (a : Qc) :
  fold_left Qcplus (map q l) a = fold_left (fun acc n => acc + q n) l a.
Proof.
  revert a. induction l as [|n l IH]; intros a; simpl; [reflexivity|apply IH].
Qed.

(** C8.  For a trajectory with [c] columns in every row, at least one row,
    and a time grid of as many samples as rows: the scalar total loss is
    Simpson's quadrature of the row-sum column against the grid, and it is
    the sum of the per-sector loss figures, each of them the same quadrature
    of that sector's column. *)
Theorem total_loss_of_row_sums (sol : matrix) (time_vec : vec)
    (labels : list label) (c : nat) :
  rectangular c sol = true ->
  length time_vec = length sol ->
  (0 < length sol)%nat ->
  nodupb labels = true ->
  length labels = c ->
  exists x r,
    total_out_loss sol time_vec false None = Ok (Total x) /\
    simps (row_sums sol) time_vec = Ok x /\
    total_out_loss sol time_vec true (Some labels) = Ok (PerSector r) /\
    s_index r = labels /\
    map (fun i => simps (column i sol) time_vec) (seq 0 c)
      = map Ok (s_values r) /\
    x = vsum (s_values r).
Proof.
  intros Hrect Hgrid Hrows Hnd Hlab.
  pose (q := column_loss sol time_vec).
  assert (Hin : forall n, In n labels -> mem n labels = true)
    by (intros n Hn; now apply mem_In).
  assert (Hvals :
    s_values (map (fun e => (fst e,
                             if mem (fst e) labels
                             then q (index_of (fst e) labels)
                             else snd e))
                  (combine labels (zeros c)))
    = map q (seq 0 c)).
  { subst c. rewrite (filled_values (fun n => q (index_of n labels))) by exact Hin.
    pose proof (list_as_table (T := label) "" labels) as Et.
    transitivity (map (fun n => q (index_of n labels))
                      (map (fun j => nth j labels "") (seq 0 (length labels)))).
    { f_equal. exact Et. }
    rewrite map_map. apply map_ext_in. intros i Hi.
    apply in_seq in Hi. f_equal. apply index_of_nth; [exact Hnd|lia]. }
  exists (fold_left (fun acc n => acc + q n) (seq 0 c) 0).
  eexists. repeat split.
  - unfold total_out_loss. rewrite (ncols_rect sol time_vec c Hrect Hgrid Hrows).
    rewrite (scalar_loop_sum sol time_vec Hgrid Hrows). reflexivity.
  - rewrite <- (partial_sums_all sol c Hrect).
    rewrite <- (scalar_loop_partial sol time_vec c Hrect Hgrid Hrows c (le_n c)).
    apply (scalar_loop_sum sol time_vec Hgrid Hrows).
  - unfold total_out_loss. rewrite (ncols_rect sol time_vec c Hrect Hgrid Hrows).
    rewrite Hlab, Nat.eqb_refl. cbn [negb].
    rewrite (new_series_ok c labels Hlab). cbn [bind].
    rewrite (sector_loop_entries sol time_vec Hgrid Hrows).
    + reflexivity.
    + intros n Hn. rewrite (s_index_fresh c labels Hlab). now apply Hin.
  - apply filled_index. exact Hlab.
  - fold q. rewrite Hvals, map_map. apply map_ext. intros i.
    apply (column_loss_ok sol time_vec Hgrid Hrows).
  - fold q. rewrite Hvals. unfold vsum. symmetry. apply vsum_map_fold.
Qed.

Lemma total_loss_of_row_sums_witness :
  exists x r,
    total_out_loss [[qz 0; qz 1]; [qz 1; qz 1]; [qz 4; qz 0]]
                   [qz 0; qz 1; qz 2] false None = Ok (Total x) /\
    simps (row_sums [[qz 0; qz 1]; [qz 1; qz 1]; [qz 4; qz 0]])
          [qz 0; qz 1; qz 2] = Ok x /\
    total_out_loss [[qz 0; qz 1]; [qz 1; qz 1]; [qz 4; qz 0]]
                   [qz 0; qz 1; qz 2] true (Some ["S1"; "S2"])
      = Ok (PerSector r) /\
    s_index r = ["S1"; "S2"] /\
    map (fun i => simps (column i [[qz 0; qz 1]; [qz 1; qz 1]; [qz 4; qz 0]])
                        [qz 0; qz 1; qz 2]) (seq 0 2)
      = map Ok (s_values r) /\
    x = vsum (s_values r).
Proof.
  apply (total_loss_of_row_sums [[qz 0; qz 1]; [qz 1; qz 1]; [qz 4; qz 0]]
           [qz 0; qz 1; qz 2] ["S1"; "S2"] 2);
    [reflexivity|reflexivity|simpl; lia|reflexivity|reflexivity].
Defined.

(** ** The time log *)

(** The log is instrumentation: it grows by the time of the call and has no
    part in the value returned. *)
Lemma rhs_value_ignores_log (st st' : time_log) (y : vec) (t : Qc)
    (A : matrix) (sectors : list label) (shock recovery : dict triple) :
  snd (economic_dynamics_ode_call st y t A sectors shock)
  = snd (economic_dynamics_ode_call st' y t A sectors shock) /\
  snd (economic_dynamics_ode_rec_call st y t A sectors shock recovery)
  = snd (economic_dynamics_ode_rec_call st' y t A sectors shock recovery) /\
  fst (economic_dynamics_ode_call st y t A sectors shock)
  = fst (economic_dynamics_ode_rec_call st y t A sectors shock recovery).
Proof.
  repeat split.
Qed.

Lemma log_time_appends (l : list Qc) (t : Qc) :
  log_time None t = Some [t] /\ log_time (Some l) t = Some (l ++ [t]).
Proof.
  split; reflexivity.
Qed.

(** ** No forcing, no response *)

Lemma dict_get_In {V : Type} (d : dict V) (k : label) (v : V) :
  dict_get d k = Some v -> In (k, v) d.
Proof.
  induction d as [|[k0 v0] r IH]; simpl; [discriminate|].
  destruct (String.eqb k0 k) eqn:E.
  - apply String.eqb_eq in E; subst k0. intros H; injection H as ->. now left.
  - intros H. right. now apply IH.
Qed.

(** A quiet entry contributes nothing, whatever the time. *)
Lemma quiet_entry (t : Qc) (x : triple) :
  Qc_eq_bool (magnitude x) 0 || negb (qleb (t_start x) (t_end x)) = true ->
  (if active t x then magnitude x else 0) = 0.
Proof.
  intros H. destruct (active t x) eqn:Hact; [|reflexivity].
  apply orb_true_iff in H as [H|H].
  - now apply Qc_eq_bool_correct.
  - apply negb_true_iff in H. apply active_true_iff in Hact as [H1 H2].
    assert (Hle : t_start x <= t_end x) by (eapply Qcle_trans; eassumption).
    unfold qleb in H. apply Qle_bool_iff in Hle.
    unfold Qcle in Hle. congruence.
Qed.

Lemma evaluate_quiet (spec : dict triple) (t : Qc) (sectors : list label) :
  quiet spec = true -> evaluate spec t sectors = zeros (length sectors).
Proof.
  intros Hq. unfold quiet in Hq. rewrite forallb_forall in Hq.
  unfold evaluate, zeros. induction sectors as [|s r IH]; simpl; [reflexivity|].
  rewrite IH. f_equal.
  destruct (dict_get spec s) as [x|] eqn:Hx; [|reflexivity].
  apply (quiet_entry t x). exact (Hq (s, x) (dict_get_In _ _ _ Hx)).
Qed.

Lemma nth_zeros (n i : nat) : nth i (zeros n) 0 = 0.
Proof.
  unfold zeros. revert i. induction n as [|n IH]; intros [|i]; simpl;
    try reflexivity. apply IH.
Qed.

Lemma map_const_zeros {T : Type} (g : T -> Qc) (l : list T) :
  (forall x, In x l -> g x = 0) -> map g l = zeros (length l).
Proof.
  unfold zeros. induction l as [|a r IH]; intros H; simpl; [reflexivity|].
  rewrite (H a) by now left. f_equal. apply IH. intros x Hx. apply H. now right.
Qed.

Lemma vsum_zeros (n : nat) : vsum (zeros n) = 0.
Proof.
  unfold zeros. induction n as [|n IH]; [reflexivity|].
  cbn [repeat]. rewrite vsum_cons, IH. ring.
Qed.

(** The zero state is an equilibrium of the law when nothing is forced. *)
Lemma propagation_law_rest (n : nat) (A : matrix) :
  length A = n -> propagation_law A (zeros n) (zeros n) = zeros n.
Proof.
  intros Hlen. unfold propagation_law. rewrite Hlen.
  transitivity (zeros (length (seq 0 n))); [|now rewrite length_seq].
  apply map_const_zeros. intros i _.
  rewrite nth_zeros, Qcplus_0_r.
  rewrite (map_const_zeros _ (seq 0 n)).
  - apply vsum_zeros.
  - intros j _. rewrite nth_zeros. ring.
Qed.

Lemma rhs_at_rest (n : nat) (A : matrix) (sectors : list label)
    (spec : dict triple) (t : Qc) :
  square n A = true -> length sectors = n ->
  dict_wf spec = true -> names_known sectors spec = true ->
  quiet spec = true ->
  economic_dynamics_ode (zeros n) t A sectors spec = Ok (zeros n).
Proof.
  intros Hsq Hsec Hwf Hknown Hq.
  destruct (dynamics_values (zeros n) t A sectors spec [] n) as [H _];
    try assumption; try reflexivity.
  - unfold zeros. apply repeat_length.
  - rewrite H, (evaluate_quiet spec t sectors Hq), Hsec.
    f_equal. apply propagation_law_rest.
    now destruct (square_rows n A Hsq).
Qed.

Lemma scale_zeros (c : Qc) (k : nat) : map (Qcmult c) (zeros k) = zeros k.
Proof.
  unfold zeros. induction k as [|k IH]; simpl; [reflexivity|].
  rewrite IH, Qcmult_0_r. reflexivity.
Qed.

Section Integrator.

Variables (f : vec -> Qc -> result vec) (n : nat).
Hypothesis f_rest : forall t, f (zeros n) t = Ok (zeros n).

Lemma lincomb_rest (coef : list Qc) (held : list vec) :
  at_rest n held -> lincomb n coef held = zeros n.
Proof.
  unfold lincomb. intros Hh.
  assert (Hgen : forall acc, acc = zeros n ->
            fold_left (zip_with Qcplus)
              (zip_with (fun c v => map (Qcmult c) v) coef held) acc
            = zeros n).
  { revert held Hh. induction coef as [|c coef IH]; intros held Hh acc Hacc;
      [exact Hacc|].
    destruct held as [|v held]; [exact Hacc|].
    inversion Hh as [|? ? Hv Hrest]; subst.
    simpl. apply IH; [exact Hrest|].
    rewrite scale_zeros. apply zeros_plus_zeros. }
  now apply Hgen.
Qed.

Lemma at_rest_snoc (held : list vec) :
  at_rest n held -> at_rest n (held ++ [zeros n]).
Proof.
  intros H. apply Forall_app. split; [exact H|]. now constructor.
Qed.

(** A stepper started on states at rest yields the state at rest. *)
Lemma run_stepper_rest (p : stepper) (held : list vec) :
  at_rest n held ->
  exists held',
    run_stepper f n p held = Ok (zeros n, held') /\ at_rest n held'.
Proof.
  revert held. induction p as [coef|coef time next IH]; intros held Hh; simpl.
  - rewrite (lincomb_rest coef held Hh).
    eexists. split; [reflexivity|]. now apply at_rest_snoc.
  - rewrite (lincomb_rest coef held Hh), f_rest. simpl.
    apply IH. now apply at_rest_snoc.
Qed.

Lemma odeint_from_rest (m : method) (rest : list Qc) (held : list vec)
    (t0 : Qc) :
  at_rest n held ->
  odeint_from m f n held (zeros n) t0 rest
  = Ok (repeat (zeros n) (S (length rest))).
Proof.
  revert held t0. induction rest as [|t1 rest IH]; intros held t0 Hh.
  - reflexivity.
  - cbn [odeint_from].
    destruct (run_stepper_rest (m held t0 t1) held Hh) as (held' & Hr & Hh').
    rewrite Hr. cbn [bind fst snd]. rewrite (IH held' t1 Hh'). reflexivity.
Qed.

End Integrator.

(** The integrator model at work: one decoupled sector under a unit push on
    [0, 1], sampled at 0, 1/2 and 1 by explicit Euler. *)
Example euler_unit_push :
  odeint euler
         (fun y t => economic_dynamics_ode y t [[0]] ["S1"] [("S1", (0, 1, 1))])
         [0] [0; half; 1]
  = Ok [[0]; [half]; [qz 3 / qz 4]].
Proof.
  vm_compute. qc_entries.
Qed.

(** C7.  For every square matrix [A], every forcing spec on the sectors of
    the economy whose entries all have a zero magnitude or an empty
    interval, and every integrator of the kind described above, the
    trajectory integrated from the zero state is the zero state at every
    sample of the time grid. *)
Theorem no_forcing_no_response (m : method) (A : matrix)
    (sectors : list label) (spec : dict triple) (grid : list Qc) (n : nat) :
  square n A = true ->
  length sectors = n ->
  dict_wf spec = true ->
  names_known sectors spec = true ->
  quiet spec = true ->
  odeint m (fun y t => economic_dynamics_ode y t A sectors spec)
         (zeros n) grid
  = Ok (repeat (zeros n) (length grid)).
Proof.
  intros Hsq Hsec Hwf Hknown Hq.
  destruct grid as [|t0 rest]; [reflexivity|].
  unfold odeint.
  replace (length (zeros n)) with n by (unfold zeros; now rewrite repeat_length).
  apply odeint_from_rest.
  - intros t. now apply rhs_at_rest.
  - constructor; [reflexivity|constructor].
Qed.

Lemma no_forcing_no_response_witness :
  odeint euler
         (fun y t =>
            economic_dynamics_ode y t [[qz 1; qz 2]; [qz 3; qz 4]]
              ["S1"; "S2"] [("S1", (0, 1, 0)); ("S2", (1, 0, 1))])
         (zeros 2) [0; half; 1]
  = Ok (repeat (zeros 2) (length [0; half; 1])).
Proof.
  apply (no_forcing_no_response euler [[qz 1; qz 2]; [qz 3; qz 4]]
           ["S1"; "S2"] [("S1", (0, 1, 0)); ("S2", (1, 0, 1))]
           [0; half; 1] 2);
    reflexivity.
Defined.

(** * Further properties of the engine *)

(** ** Sector labels of a model *)

Lemma mem_cons (k a : label) (l : list label) :
  mem k (a :: l) = String.eqb a k || mem k l.
Proof. reflexivity. Qed.

Lemma mem_unique_acc (seen l : list label) (k : label) :
  mem k (unique_acc seen l) = mem k l && negb (mem k seen).
Proof.
  revert seen. induction l as [|a r IH]; intros seen; simpl; [reflexivity|].
  destruct (mem a seen) eqn:Ea.
  - rewrite IH. destruct (String.eqb a k) eqn:E; [|reflexivity].
    apply String.eqb_eq in E; subst a. rewrite Ea. simpl.
    now rewrite andb_false_r.
  - simpl. rewrite IH. simpl.
    destruct (String.eqb a k) eqn:E; simpl; [|reflexivity].
    apply String.eqb_eq in E; subst a. now rewrite Ea.
Qed.

Lemma nodupb_unique_acc (seen l : list label) : nodupb (unique_acc seen l) = true.
Proof.
  revert seen. induction l as [|a r IH]; intros seen; simpl; [reflexivity|].
  destruct (mem a seen) eqn:Ea; [apply IH|].
  simpl. rewrite IH, mem_unique_acc. simpl. rewrite String.eqb_refl. simpl.
  now rewrite andb_false_r.
Qed.

Lemma unique_acc_nodup (seen l : list label) :
  nodupb l = true -> (forall k, In k l -> mem k seen = false) ->
  unique_acc seen l = l.
Proof.
  revert seen. induction l as [|a r IH]; intros seen Hnd Hs; simpl;
    [reflexivity|].
  simpl in Hnd. apply andb_true_iff in Hnd as [Ha Hnd].
  apply negb_true_iff in Ha.
  rewrite (Hs a) by now left. f_equal. apply IH; [exact Hnd|].
  intros k Hk. simpl.
  destruct (String.eqb a k) eqn:E; simpl.
  - apply String.eqb_eq in E; subst a.
    apply mem_In in Hk. congruence.
  - apply Hs. now right.
Qed.

Lemma unique_acc_length (seen l : list label) :
  (length (unique_acc seen l) <= length l)%nat.
Proof.
  revert seen. induction l as [|a r IH]; intros seen; simpl; [lia|].
  destruct (mem a seen); simpl;
    [specialize (IH seen)|specialize (IH (a :: seen))]; lia.
Qed.

(** X1.  Every model the constructor builds from a frame with at least one
    row whose rows match the demand vector keeps the frame and its index,
    sets [x_out] to the baseline, and lists each label of the index once in
    [sectors]: no label twice, the same labels as the index, and the index
    itself when the index has no repeated label. *)
Theorem sectors_are_distinct_labels (df : DataFrame) (demand : demand_arg)
    (type : string) :
  let d := match demand with Unit => ones (df_len df) | Demand v => v end in
  df_values df <> [] ->
  rectangular (length d) (df_values df) = true ->
  exists m,
    LeonTradeModel.init df demand type = Ok m /\
    LeonTradeModel.df_A m = df /\
    LeonTradeModel.sector_indices m = df_index df /\
    LeonTradeModel.x_out m = LeonTradeModel.x_base m /\
    nodupb (LeonTradeModel.sectors m) = true /\
    (forall k, mem k (LeonTradeModel.sectors m) = mem k (df_index df)) /\
    (if nodupb (df_index df)
     then LeonTradeModel.sectors m = df_index df
     else (length (LeonTradeModel.sectors m) <= length (df_index df))%nat).
Proof.
  intros d _ Hrect. unfold LeonTradeModel.init. fold d.
  rewrite (np_dot_rectangular _ _ Hrect). cbn [bind].
  eexists. split; [reflexivity|]. cbn.
  repeat split.
  - apply nodupb_unique_acc.
  - intros k. unfold unique. rewrite mem_unique_acc. simpl.
    now rewrite andb_true_r.
  - destruct (nodupb (df_index df)) eqn:Hnd.
    + apply unique_acc_nodup; [exact Hnd|reflexivity].
    + apply unique_acc_length.
Qed.

Lemma sectors_are_distinct_labels_witness :
  exists m,
    LeonTradeModel.init
      {| df_index := ["S1"; "S2"; "S1"];
         df_values := [[1; 0; 0]; [0; 1; 0]; [0; 0; 1]] |} Unit "Upstream"
      = Ok m /\
    LeonTradeModel.df_A m
      = {| df_index := ["S1"; "S2"; "S1"];
           df_values := [[1; 0; 0]; [0; 1; 0]; [0; 0; 1]] |} /\
    LeonTradeModel.sector_indices m = ["S1"; "S2"; "S1"] /\
    LeonTradeModel.x_out m = LeonTradeModel.x_base m /\
    nodupb (LeonTradeModel.sectors m) = true /\
    (forall k, mem k (LeonTradeModel.sectors m) = mem k ["S1"; "S2"; "S1"]) /\
    (length (LeonTradeModel.sectors m) <= 3)%nat.
Proof.
  apply (sectors_are_distinct_labels
           {| df_index := ["S1"; "S2"; "S1"];
              df_values := [[1; 0; 0]; [0; 1; 0]; [0; 0; 1]] |} Unit "Upstream");
    [discriminate|reflexivity].
Defined.

Lemma unique_acc_drops_seen (seen l : list label) (k : label) :
  In k l -> mem k seen = true ->
  (length (unique_acc seen l) < length l)%nat.
Proof.
  revert seen. induction l as [|b r IH]; intros seen Hin Hk; simpl in *;
    [contradiction|].
  destruct (mem b seen) eqn:Eb.
  - pose proof (unique_acc_length seen r). lia.
  - destruct Hin as [->|Hin]; [congruence|]. simpl.
    assert (Hk' : mem k (b :: seen) = true)
      by (simpl; rewrite Hk; apply orb_true_r).
    specialize (IH (b :: seen) Hin Hk'). lia.
Qed.

(** A list with a repeated label loses at least one entry in [unique]. *)
Lemma unique_shorter (l : list label) :
  nodupb l = false -> (length (unique l) < length l)%nat.
Proof.
  unfold unique. generalize (@nil label) as seen.
  induction l as [|a r IH]; intros seen Hnd; simpl in *; [discriminate|].
  destruct (mem a seen) eqn:Ea.
  - pose proof (unique_acc_length seen r). lia.
  - simpl. apply andb_false_iff in Hnd as [Hnd|Hnd].
    + apply negb_false_iff in Hnd. apply mem_In in Hnd.
      assert (Ha : mem a (a :: seen) = true)
        by (simpl; now rewrite String.eqb_refl).
      pose proof (unique_acc_drops_seen (a :: seen) r a Hnd Ha). lia.
    + specialize (IH (a :: seen) Hnd). lia.
Qed.

(** ** Failures of the constructor *)

(** X2.  The constructor raises [ValueError] when the demand vector does not
    match the rows of the frame: for a non-empty frame whose rows have [c]
    entries and a demand vector of another length.  In particular unit
    demand, which is as long as the index, fails on a frame whose rows are
    not as long as its index. *)
Theorem init_rejects_mismatched_demand (df : DataFrame) (demand : demand_arg)
    (type : string) (c : nat) :
  let d := match demand with Unit => ones (df_len df) | Demand v => v end in
  rectangular c (df_values df) = true ->
  df_values df <> [] ->
  length d <> c ->
  LeonTradeModel.init df demand type = Raise ValueError.
Proof.
  intros d Hrect Hne Hlen. unfold LeonTradeModel.init. fold d.
  unfold np_dot. destruct (df_values df) as [|row rest]; [congruence|].
  simpl in *. apply andb_true_iff in Hrect as [Hrow _].
  apply Nat.eqb_eq in Hrow. rewrite Hrow.
  destruct (Nat.eqb c (length d)) eqn:E; [|reflexivity].
  apply Nat.eqb_eq in E. congruence.
Qed.

Lemma init_rejects_mismatched_demand_witness :
  LeonTradeModel.init
    {| df_index := ["S1"; "S2"]; df_values := [[1; 0; 0]; [0; 1; 0]] |}
    Unit "Upstream"
  = Raise ValueError.
Proof.
  apply (init_rejects_mismatched_demand
           {| df_index := ["S1"; "S2"]; df_values := [[1; 0; 0]; [0; 1; 0]] |}
           Unit "Upstream" 3);
    [reflexivity|discriminate|simpl; lia].
Defined.

(** ** The downstream matrix *)

Lemma nth_column (j i : nat) (M : matrix) :
  nth i (column j M) 0 = nth j (nth i M []) 0.
Proof.
  unfold column. apply (nth_map_default (fun row : vec => nth j row 0) [] 0).
  now destruct j.
Qed.

Lemma nth_transpose (M : matrix) (j : nat) :
  (j < ncols M)%nat -> nth j (transpose M) [] = column j M.
Proof.
  intros Hj. unfold transpose.
  rewrite (nth_indep _ [] (column 0 M)) by (now rewrite length_map, length_seq).
  rewrite (map_nth (fun c => column c M)), seq_nth by exact Hj. reflexivity.
Qed.

Lemma square_ncols (n : nat) (M : matrix) :
  square n M = true -> ncols M = n.
Proof.
  intros Hsq. destruct (square_rows n M Hsq) as [Hlen Hrows].
  unfold ncols. destruct M as [|row rest]; simpl in *; [exact Hlen|].
  apply (Hrows 0%nat). lia.
Qed.

Lemma transpose_square (n : nat) (M : matrix) :
  square n M = true -> square n (transpose M) = true.
Proof.
  intros Hsq. destruct (square_rows n M Hsq) as [Hlen _].
  unfold square, transpose. rewrite (square_ncols n M Hsq).
  rewrite length_map, length_seq, Nat.eqb_refl. simpl.
  apply forallb_map_all. intros j. unfold column.
  rewrite length_map. apply Nat.eqb_eq. exact Hlen.
Qed.

(** Entry (i, j) of the transpose is entry (j, i). *)
Lemma transpose_entry (n : nat) (M : matrix) (i j : nat) :
  square n M = true -> (i < n)%nat ->
  nth j (nth i (transpose M) []) 0 = nth i (nth j M []) 0.
Proof.
  intros Hsq Hi.
  rewrite nth_transpose by (now rewrite (square_ncols n M Hsq)).
  apply nth_column.
Qed.

Lemma square_table (n : nat) (M : matrix) :
  square n M = true ->
  M = map (fun i => map (fun j => nth j (nth i M []) 0) (seq 0 n)) (seq 0 n).
Proof.
  intros Hsq. destruct (square_rows n M Hsq) as [Hlen Hrows].
  pose proof (list_as_table (T := vec) [] M) as EM. rewrite Hlen in EM.
  transitivity (map (fun i => nth i M []) (seq 0 n)); [exact EM|].
  apply map_ext_in. intros i Hi. apply in_seq in Hi.
  pose proof (list_as_table (T := Qc) 0 (nth i M [])) as Er.
  rewrite (Hrows i) in Er by lia. exact Er.
Qed.

Lemma transpose_involutive (n : nat) (M : matrix) :
  square n M = true -> transpose (transpose M) = M.
Proof.
  intros Hsq. pose proof (transpose_square n M Hsq) as Hsq'.
  transitivity
    (map (fun i => map (fun j => nth j (nth i M []) 0) (seq 0 n)) (seq 0 n));
    [|symmetry; now apply square_table].
  rewrite (square_table n (transpose (transpose M)))
    by (now apply transpose_square).
  apply map_ext_in. intros i Hi. apply in_seq in Hi.
  apply map_ext_in. intros j Hj. apply in_seq in Hj.
  rewrite (transpose_entry n (transpose M) i j Hsq') by lia.
  apply (transpose_entry n M j i Hsq). lia.
Qed.

(** X3.  For the downstream direction on a square frame and a demand vector
    of the frame's dimension, the matrix kept for the dynamics is square of
    the same dimension and its entry (i, j) is the entry (j, i) of the
    frame. *)
Theorem downstream_matrix_entries (df : DataFrame) (demand : demand_arg)
    (n : nat) :
  let d := match demand with Unit => ones (df_len df) | Demand v => v end in
  square n (df_values df) = true ->
  length d = n ->
  exists m a,
    LeonTradeModel.init df demand "Downstream" = Ok m /\
    LeonTradeModel.get_A m = Ok a /\
    square n a = true /\
    forall i j, (i < n)%nat -> (j < n)%nat ->
      nth j (nth i a []) 0 = nth i (nth j (df_values df) []) 0.
Proof.
  intros d Hsq Hd.
  assert (Hrect : rectangular (length d) (df_values df) = true).
  { unfold square in Hsq. apply andb_true_iff in Hsq as [_ H]. now rewrite Hd. }
  destruct (init_attributes df demand "Downstream" Hrect)
    as (m & Hinit & _ & _ & HA).
  simpl in HA. exists m, (transpose (df_values df)).
  split; [exact Hinit|]. split.
  - unfold LeonTradeModel.get_A. now rewrite HA.
  - split; [now apply transpose_square|].
    intros i j Hi _. now apply (transpose_entry n).
Qed.

Lemma downstream_matrix_entries_witness :
  exists m a,
    LeonTradeModel.init two_sector_frame Unit "Downstream" = Ok m /\
    LeonTradeModel.get_A m = Ok a /\
    square 2 a = true /\
    forall i j, (i < 2)%nat -> (j < 2)%nat ->
      nth j (nth i a []) 0 = nth i (nth j (df_values two_sector_frame) []) 0.
Proof.
  apply (downstream_matrix_entries two_sector_frame Unit 2); reflexivity.
Defined.

(** X4.  Transposing is undone by transposing: a downstream model built on
    the transposed frame keeps for the dynamics the very matrix an upstream
    model keeps on the frame itself. *)
Theorem downstream_of_transposed_frame (df : DataFrame) (demand : demand_arg)
    (n : nat) :
  let d := match demand with Unit => ones (df_len df) | Demand v => v end in
  square n (df_values df) = true ->
  length d = n ->
  exists m_up m_down,
    LeonTradeModel.init df demand "Upstream" = Ok m_up /\
    LeonTradeModel.init
      {| df_index := df_index df; df_values := transpose (df_values df) |}
      demand "Downstream" = Ok m_down /\
    LeonTradeModel.A m_up = Some (df_values df) /\
    LeonTradeModel.A m_down = Some (df_values df).
Proof.
  intros d Hsq Hd.
  assert (Hrect : forall M, square n M = true -> rectangular (length d) M = true).
  { intros M HM. unfold square in HM. apply andb_true_iff in HM as [_ HM].
    now rewrite Hd. }
  destruct (init_attributes df demand "Upstream" (Hrect _ Hsq))
    as (m1 & H1 & _ & _ & HA1).
  destruct (init_attributes
              {| df_index := df_index df; df_values := transpose (df_values df) |}
              demand "Downstream" (Hrect _ (transpose_square n _ Hsq)))
    as (m2 & H2 & _ & _ & HA2).
  simpl in HA1, HA2. rewrite (transpose_involutive n _ Hsq) in HA2.
  exists m1, m2. repeat split; assumption.
Qed.

Lemma downstream_of_transposed_frame_witness :
  exists m_up m_down,
    LeonTradeModel.init two_sector_frame Unit "Upstream" = Ok m_up /\
    LeonTradeModel.init
      {| df_index := df_index two_sector_frame;
         df_values := transpose (df_values two_sector_frame) |}
      Unit "Downstream" = Ok m_down /\
    LeonTradeModel.A m_up = Some (df_values two_sector_frame) /\
    LeonTradeModel.A m_down = Some (df_values two_sector_frame).
Proof.
  apply (downstream_of_transposed_frame two_sector_frame Unit 2); reflexivity.
Defined.

(** ** Keys of a forcing spec *)

Lemma mem_app (k : label) (l1 l2 : list label) :
  mem k (l1 ++ l2) = mem k l1 || mem k l2.
Proof.
  induction l1 as [|a r IH]; simpl; [reflexivity|].
  now rewrite IH, orb_assoc.
Qed.

Lemma nodupb_snoc (l : list label) (k : label) :
  nodupb l = true -> mem k l = false -> nodupb (l ++ [k]) = true.
Proof.
  induction l as [|a r IH]; intros Hnd Hk; simpl in *; [reflexivity|].
  apply andb_true_iff in Hnd as [Ha Hnd].
  apply orb_false_iff in Hk as [Hak Hk].
  rewrite mem_app. simpl. rewrite orb_false_r.
  apply negb_true_iff in Ha. rewrite Ha. simpl.
  rewrite String.eqb_sym, Hak. simpl. now apply IH.
Qed.

Section KeyFacts.

Context {V : Type}.
Implicit Types (d : dict V) (k : label) (v : V).

Lemma keys_dict_set d k v :
  keys (dict_set d k v) = if mem k (keys d) then keys d else keys d ++ [k].
Proof.
  induction d as [|[k0 v0] r IH]; simpl; [reflexivity|].
  destruct (String.eqb k0 k) eqn:E; simpl; [reflexivity|].
  rewrite IH. now destruct (mem k (keys r)).
Qed.

Lemma dict_set_fresh d k v :
  mem k (keys d) = false -> dict_set d k v = d ++ [(k, v)].
Proof.
  induction d as [|[k0 v0] r IH]; simpl; [reflexivity|].
  intros H. apply orb_false_iff in H as [E H]. rewrite E.
  now rewrite IH.
Qed.

(** Assignment keeps the keys of a dictionary distinct. *)
Lemma dict_wf_set d k v : dict_wf d = true -> dict_wf (dict_set d k v) = true.
Proof.
  unfold dict_wf. intros H. rewrite keys_dict_set.
  destruct (mem k (keys d)) eqn:E; [exact H|]. now apply nodupb_snoc.
Qed.

Lemma dict_wf_fill (l : list label) v d :
  dict_wf d = true ->
  dict_wf (fold_left (fun a s => dict_set a s v) l d) = true.
Proof.
  revert d. induction l as [|a r IH]; intros d H; simpl; [exact H|].
  apply IH. now apply dict_wf_set.
Qed.

Lemma dict_wf_overlay (acc src : dict V) :
  dict_wf acc = true -> dict_wf (dict_overlay acc src) = true.
Proof.
  unfold dict_overlay. generalize (keys src) as ks. intros ks. revert acc.
  induction ks as [|a r IH]; intros acc H; simpl; [exact H|].
  apply IH. destruct (dict_get src a); [now apply dict_wf_set|exact H].
Qed.

(** Filling fresh, distinct keys appends them in order. *)
Lemma fill_fresh (l : list label) v d :
  nodupb l = true ->
  (forall k, In k l -> mem k (keys d) = false) ->
  fold_left (fun a s => dict_set a s v) l d = d ++ map (fun s => (s, v)) l.
Proof.
  revert d. induction l as [|a r IH]; intros d Hnd Hfresh; simpl.
  - now rewrite app_nil_r.
  - simpl in Hnd. apply andb_true_iff in Hnd as [Ha Hnd].
    apply negb_true_iff in Ha.
    rewrite dict_set_fresh by (apply Hfresh; now left).
    rewrite IH; [now rewrite <- app_assoc|exact Hnd|].
    intros k Hk. unfold keys. rewrite map_app. fold (keys d).
    rewrite mem_app. simpl. rewrite orb_false_r.
    rewrite (Hfresh k) by now right. simpl.
    destruct (String.eqb a k) eqn:E; [|reflexivity].
    apply String.eqb_eq in E; subst a. apply mem_In in Hk. congruence.
Qed.

(** Overlaying entries on keys that are all present changes no key. *)
Lemma keys_overlay_known (acc src : dict V) :
  forallb (fun k => mem k (keys acc)) (keys src) = true ->
  keys (dict_overlay acc src) = keys acc.
Proof.
  unfold dict_overlay. generalize (keys src) as ks. intros ks. revert acc.
  induction ks as [|a r IH]; intros acc H; simpl in *; [reflexivity|].
  apply andb_true_iff in H as [Ha H].
  destruct (dict_get src a) as [v|].
  - assert (Hk : keys (dict_set acc a v) = keys acc)
      by (now rewrite keys_dict_set, Ha).
    rewrite IH; [exact Hk|now rewrite Hk].
  - now apply IH.
Qed.

End KeyFacts.

(** X5.  Whatever the overrides, the shock spec returned is a dictionary
    with distinct keys, and its keys are the sectors of the economy together
    with the names of the overrides. *)
Theorem shock_spec_keys (self : LeonTradeModel.t) (ov : dict triple)
    (g : triple) :
  exists spec,
    LeonTradeModel.shock_impulse self (Some ov) g = Ok spec /\
    dict_wf spec = true /\
    forall k,
      mem k (keys spec)
      = mem k (LeonTradeModel.sectors self) || mem k (keys ov).
Proof.
  destruct (shock_impulse_entries self ov g) as (spec & Hs & E).
  exists spec. split; [exact Hs|]. split.
  - unfold LeonTradeModel.shock_impulse in Hs. injection Hs as <-.
    apply dict_wf_overlay. unfold LeonTradeModel.fill. now apply dict_wf_fill.
  - intros k. rewrite !mem_keys_get, E.
    destruct (dict_get ov k); [now rewrite orb_true_r|].
    now destruct (mem k (LeonTradeModel.sectors self)).
Qed.

Lemma fill_sectors (self : LeonTradeModel.t) (g : triple) :
  nodupb (LeonTradeModel.sectors self) = true ->
  LeonTradeModel.fill self g []
  = map (fun s => (s, LeonTradeModel.general_entry g))
        (LeonTradeModel.sectors self).
Proof.
  intros Hnd. unfold LeonTradeModel.fill.
  now rewrite fill_fresh by (exact Hnd || reflexivity).
Qed.

Lemma keys_fill_sectors (self : LeonTradeModel.t) (g : triple) :
  nodupb (LeonTradeModel.sectors self) = true ->
  keys (LeonTradeModel.fill self g []) = LeonTradeModel.sectors self.
Proof.
  intros Hnd. rewrite (fill_sectors self g Hnd). unfold keys.
  rewrite map_map. simpl. apply map_id.
Qed.

(** The spec built from overrides on sectors of the economy. *)
Lemma shock_spec_known (self : LeonTradeModel.t) (ov : dict triple)
    (g : triple) :
  nodupb (LeonTradeModel.sectors self) = true ->
  names_known (LeonTradeModel.sectors self) ov = true ->
  exists spec,
    LeonTradeModel.shock_impulse self (Some ov) g = Ok spec /\
    keys spec = LeonTradeModel.sectors self /\
    dict_wf spec = true /\
    names_known (LeonTradeModel.sectors self) spec = true.
Proof.
  intros Hnd Hknown. eexists. split; [reflexivity|].
  assert (Hkeys : keys (dict_overlay (LeonTradeModel.fill self g []) ov)
                  = LeonTradeModel.sectors self).
  { rewrite keys_overlay_known; rewrite (keys_fill_sectors self g Hnd);
      [reflexivity|exact Hknown]. }
  split; [exact Hkeys|]. split.
  - unfold dict_wf. now rewrite Hkeys.
  - unfold names_known. rewrite Hkeys. apply forallb_forall.
    intros k Hk. now apply mem_In.
Qed.

(** X6.  When the sectors are distinct and every override names a sector of
    the economy, the shock spec has exactly one entry per sector, in the
    order of the sectors: overriding never adds, drops or moves a key. *)
Theorem shock_spec_one_entry_per_sector (self : LeonTradeModel.t)
    (ov : dict triple) (g : triple) :
  nodupb (LeonTradeModel.sectors self) = true ->
  names_known (LeonTradeModel.sectors self) ov = true ->
  exists spec,
    LeonTradeModel.shock_impulse self (Some ov) g = Ok spec /\
    keys spec = LeonTradeModel.sectors self /\
    length spec = length (LeonTradeModel.sectors self).
Proof.
  intros Hnd Hknown.
  destruct (shock_spec_known self ov g Hnd Hknown) as (spec & Hs & Hk & _).
  exists spec. split; [exact Hs|]. split; [exact Hk|].
  rewrite <- Hk. unfold keys. now rewrite length_map.
Qed.

Lemma shock_spec_one_entry_per_sector_witness :
  exists spec,
    LeonTradeModel.shock_impulse two_sector_model
      (Some [("S2", (0, half, 1))]) (0, 1, half) = Ok spec /\
    keys spec = LeonTradeModel.sectors two_sector_model /\
    length spec = length (LeonTradeModel.sectors two_sector_model).
Proof.
  apply (shock_spec_one_entry_per_sector two_sector_model
           [("S2", (0, half, 1))] (0, 1, half));
    reflexivity.
Defined.

(** X7.  A spread stimulus never looks at the overrides: whatever is passed
    for them (a mapping or [None]), the recovery spec gives every sector, in
    order, the economy-wide triple with its two bounds divided by 12, and it
    is the very spec [shock_impulse] builds from that triple with no
    override. *)
Theorem spread_recovery_is_uniform (self : LeonTradeModel.t)
    (ov : option (dict triple)) (g : triple) :
  nodupb (LeonTradeModel.sectors self) = true ->
  LeonTradeModel.recovery_impulse self ov g "Spread stimulus"
    = Ok (map (fun s => (s, (t_start g / LeonTradeModel.twelve,
                             t_end g / LeonTradeModel.twelve,
                             magnitude g)))
              (LeonTradeModel.sectors self)) /\
  LeonTradeModel.shock_impulse self (Some []) g
    = LeonTradeModel.recovery_impulse self ov g "Spread stimulus".
Proof.
  intros Hnd. unfold LeonTradeModel.recovery_impulse. simpl.
  rewrite (fill_sectors self g Hnd). split; reflexivity.
Qed.

Lemma spread_recovery_is_uniform_witness :
  LeonTradeModel.recovery_impulse two_sector_model None (0, 1, half)
                                  "Spread stimulus"
    = Ok (map (fun s => (s, (t_start (0, 1, half) / LeonTradeModel.twelve,
                             t_end (0, 1, half) / LeonTradeModel.twelve,
                             magnitude (0, 1, half))))
              (LeonTradeModel.sectors two_sector_model)) /\
  LeonTradeModel.shock_impulse two_sector_model (Some []) (0, 1, half)
    = LeonTradeModel.recovery_impulse two_sector_model None (0, 1, half)
                                      "Spread stimulus".
Proof.
  apply (spread_recovery_is_uniform two_sector_model None (0, 1, half)).
  reflexivity.
Defined.

(** ** The right-hand sides on specs of every shape *)

Lemma zip_plus_zeros (v : vec) (n : nat) :
  length v = n -> zip_with Qcplus v (zeros n) = v.
Proof.
  intros <-. unfold zeros. induction v as [|a v IH]; simpl; [reflexivity|].
  now rewrite IH, Qcplus_0_r.
Qed.

Lemma s_values_fresh (n : nat) (index : list label) :
  length index = n -> s_values (combine index (zeros n)) = zeros n.
Proof.
  intros <-. unfold s_values, zeros.
  induction index as [|a r IH]; simpl; [reflexivity|]. now rewrite IH.
Qed.

Lemma same_shape_length (M N : matrix) :
  same_shape M N = true -> length M = length N.
Proof.
  revert N. induction M as [|r M IH]; intros [|s N] H; simpl in *;
    try discriminate; [reflexivity|].
  apply andb_true_iff in H as [_ H]. f_equal. now apply IH.
Qed.

(** The linear part, when it is computed, has one entry per row of [A]. *)
Lemma relaxation_length (A : matrix) (y d : vec) (M : matrix) :
  np_sub A (np_eye (length A)) = Ok M -> np_dot M y = Ok d ->
  length d = length A.
Proof.
  unfold np_sub, np_dot.
  destruct (same_shape A (np_eye (length A))) eqn:Hs; [|discriminate].
  intros HM. injection HM as <-.
  destruct (forallb _ _); [|discriminate].
  intros Hd. injection Hd as <-.
  rewrite length_map. apply zip_with_length. now apply same_shape_length.
Qed.

(** X8.  For a shock spec on sectors of the economy, the right-hand side
    with an empty recovery spec is the shock-only right-hand side, value for
    value and error for error. *)
Theorem empty_recovery_changes_nothing (y : vec) (t : Qc) (A : matrix)
    (sectors : list label) (shock : dict triple) :
  names_known sectors shock = true ->
  economic_dynamics_ode_rec y t A sectors shock []
  = economic_dynamics_ode y t A sectors shock.
Proof.
  intros _. unfold economic_dynamics_ode_rec, economic_dynamics_ode.
  destruct (new_series (zeros (length A)) sectors) as [s0|e] eqn:Hs0;
    [|reflexivity].
  apply new_series_inv in Hs0 as [Hlen ->]. cbn [bind].
  destruct (np_sub A (np_eye (length A))) as [M|e] eqn:HM; [|reflexivity].
  cbn [bind].
  destruct (np_dot M y) as [d|e] eqn:Hd; [|reflexivity]. cbn [bind].
  pose proof (relaxation_length A y d M HM Hd) as Hdl.
  change (apply_forcing t [] (combine sectors (zeros (length A))))
    with (combine sectors (zeros (length A))).
  rewrite (s_values_fresh _ _ Hlen).
  remember (s_values (apply_forcing t shock
                        (combine sectors (zeros (length A))))) as vals.
  destruct (np_add d vals) as [ds|e] eqn:Hadd; [|reflexivity]. cbn [bind].
  unfold np_add in Hadd.
  destruct (Nat.eqb (length d) (length vals)) eqn:E; [|discriminate].
  apply Nat.eqb_eq in E. injection Hadd as <-.
  assert (Hz : length (zip_with Qcplus d vals) = length A)
    by (rewrite zip_with_length; assumption).
  unfold np_add.
  replace (length (zeros (length A))) with (length A)
    by (unfold zeros; now rewrite repeat_length).
  rewrite Hz, Nat.eqb_refl. f_equal. now apply zip_plus_zeros.
Qed.

Lemma empty_recovery_changes_nothing_witness :
  economic_dynamics_ode_rec [1; 1] 0 [[qz 1; qz 2]; [qz 3; qz 4]]
                            ["S1"; "S2"] [("S2", (0, half, 1))] []
  = economic_dynamics_ode [1; 1] 0 [[qz 1; qz 2]; [qz 3; qz 4]]
                          ["S1"; "S2"] [("S2", (0, half, 1))].
Proof.
  apply (empty_recovery_changes_nothing [1; 1] 0 [[qz 1; qz 2]; [qz 3; qz 4]]
           ["S1"; "S2"] [("S2", (0, half, 1))]).
  reflexivity.
Defined.

Lemma series_set_length (s : series) (k : label) (v : Qc) :
  (length s <= length (series_set s k v))%nat.
Proof.
  unfold series_set. destruct (mem k (s_index s)).
  - now rewrite length_map.
  - rewrite length_app. simpl. lia.
Qed.

Lemma s_index_series_set_other (s : series) (k k' : label) (v : Qc) :
  String.eqb k k' = false ->
  mem k' (s_index (series_set s k v)) = mem k' (s_index s).
Proof.
  intros Hk. unfold series_set. destruct (mem k (s_index s)).
  - f_equal. unfold s_index. rewrite map_map. apply map_ext.
    intros [a b]. simpl. now destruct (String.eqb a k).
  - unfold s_index. rewrite map_app. fold (s_index s). rewrite mem_app.
    simpl. rewrite Hk. now rewrite !orb_false_r.
Qed.

(** The forcing loop never shortens a Series. *)
Lemma apply_forcing_length (t : Qc) (spec : dict triple) (s : series) :
  (length s <= length (apply_forcing t spec s))%nat.
Proof.
  revert s. induction spec as [|[k x] r IH]; intros s; [simpl; lia|].
  change (apply_forcing t ((k, x) :: r) s)
    with (apply_forcing t r
            (if active t x then series_set s k (magnitude x) else s)).
  destruct (active t x).
  - pose proof (series_set_length s k (magnitude x)).
    specialize (IH (series_set s k (magnitude x))). lia.
  - apply IH.
Qed.

(** An active entry on a label that the Series does not have makes the
    Series longer. *)
Lemma apply_forcing_enlarges (t : Qc) (spec : dict triple) (s : series)
    (k : label) (x : triple) :
  dict_get spec k = Some x -> active t x = true ->
  mem k (s_index s) = false ->
  (length s < length (apply_forcing t spec s))%nat.
Proof.
  revert s. induction spec as [|[k0 x0] r IH]; intros s Hget Hact Hk;
    [discriminate|].
  change (apply_forcing t ((k0, x0) :: r) s)
    with (apply_forcing t r
            (if active t x0 then series_set s k0 (magnitude x0) else s)).
  simpl in Hget. destruct (String.eqb k0 k) eqn:E.
  - apply String.eqb_eq in E; subst k0. injection Hget as ->.
    rewrite Hact.
    pose proof (apply_forcing_length t r (series_set s k (magnitude x))) as Hl.
    unfold series_set in Hl at 1. rewrite Hk, length_app in Hl. simpl in Hl. lia.
  - destruct (active t x0).
    + pose proof (series_set_length s k0 (magnitude x0)).
      assert (Hk' : mem k (s_index (series_set s k0 (magnitude x0))) = false)
        by (now rewrite s_index_series_set_other).
      specialize (IH _ Hget Hact Hk'). lia.
    + now apply IH.
Qed.

(** The shock-only right-hand side while an entry on an unknown label is
    active. *)
Lemma rhs_unknown_label (y : vec) (t : Qc) (A : matrix) (sectors : list label)
    (spec : dict triple) (n : nat) (k : label) (x : triple) :
  square n A = true -> length y = n -> length sectors = n ->
  dict_get spec k = Some x -> mem k sectors = false -> active t x = true ->
  economic_dynamics_ode y t A sectors spec = Raise ValueError.
Proof.
  intros Hsq Hy Hsec Hget Hk Hact.
  destruct (square_rows n A Hsq) as [Hlen _].
  destruct (relaxation_table n A y Hsq Hy) as (M & HM & Hdot).
  unfold economic_dynamics_ode.
  rewrite HM, Hlen, (new_series_ok n sectors Hsec). cbn [bind].
  rewrite Hdot. cbn [bind]. unfold np_add.
  rewrite length_map, length_seq. unfold s_values. rewrite length_map.
  assert (Hlt : (length (combine sectors (zeros n))
                 < length (apply_forcing t spec (combine sectors (zeros n))))%nat).
  { apply (apply_forcing_enlarges t spec _ k x Hget Hact).
    now rewrite (s_index_fresh n sectors Hsec). }
  rewrite length_combine in Hlt. unfold zeros in Hlt at 1.
  rewrite repeat_length, Hsec, Nat.min_id in Hlt.
  destruct (Nat.eqb n _) eqn:E; [|reflexivity].
  apply Nat.eqb_eq in E. lia.
Qed.

(** X9.  An override on a name that is not a sector of the economy is
    stored by [shock_impulse], and the spec it returns makes the shock-only
    right-hand side raise [ValueError] at every time at which that override
    is active (economies of two sectors or more). *)
Theorem unknown_override_breaks_dynamics (self : LeonTradeModel.t)
    (ov : dict triple) (g : triple) (A : matrix) (n : nat) (k : label)
    (x : triple) :
  (2 <= n)%nat ->
  square n A = true ->
  length (LeonTradeModel.sectors self) = n ->
  dict_get ov k = Some x ->
  mem k (LeonTradeModel.sectors self) = false ->
  exists spec,
    LeonTradeModel.shock_impulse self (Some ov) g = Ok spec /\
    dict_get spec k = Some x /\
    forall y t, length y = n -> active t x = true ->
      economic_dynamics_ode y t A (LeonTradeModel.sectors self) spec
      = Raise ValueError.
Proof.
  intros _ Hsq Hsec Hget Hk.
  destruct (shock_impulse_entries self ov g) as (spec & Hs & E).
  assert (Hspec : dict_get spec k = Some x) by (now rewrite E, Hget).
  exists spec. split; [exact Hs|]. split; [exact Hspec|].
  intros y t Hy Hact.
  now apply (rhs_unknown_label y t A _ spec n k x).
Qed.

Lemma unknown_override_breaks_dynamics_witness :
  exists spec,
    LeonTradeModel.shock_impulse two_sector_model
      (Some [("X", (0, 1, 1))]) (0, 0, 0) = Ok spec /\
    dict_get spec "X" = Some (0, 1, 1) /\
    forall y t, length y = 2%nat -> active t (0, 1, 1) = true ->
      economic_dynamics_ode y t [[qz 1; qz 2]; [qz 3; qz 4]]
                            (LeonTradeModel.sectors two_sector_model) spec
      = Raise ValueError.
Proof.
  apply (unknown_override_breaks_dynamics two_sector_model
           [("X", (0, 1, 1))] (0, 0, 0) [[qz 1; qz 2]; [qz 3; qz 4]] 2 "X");
    [lia|reflexivity|reflexivity|reflexivity|reflexivity].
Defined.

Lemma forallb_map_none {T U : Type} (p : U -> bool) (g : T -> U) (l : list T) :
  l <> [] -> (forall x, p (g x) = false) -> forallb p (map g l) = false.
Proof.
  destruct l as [|a r]; [congruence|]. intros _ H. simpl. now rewrite H.
Qed.

(** X10.  On a square matrix of dimension [n >= 1], both right-hand sides
    raise [ValueError] when the state vector does not have [n] entries, and
    when the sector list does not have [n] labels, whatever the specs. *)
Theorem dynamics_reject_wrong_dimensions (y : vec) (t : Qc) (A : matrix)
    (sectors : list label) (shock recovery : dict triple) (n : nat) :
  square n A = true ->
  (0 < n)%nat ->
  length y <> n \/ length sectors <> n ->
  economic_dynamics_ode y t A sectors shock = Raise ValueError /\
  economic_dynamics_ode_rec y t A sectors shock recovery = Raise ValueError.
Proof.
  intros Hsq Hpos Hbad.
  destruct (square_rows n A Hsq) as [Hlen Hrows].
  unfold economic_dynamics_ode, economic_dynamics_ode_rec.
  rewrite Hlen. unfold new_series, zeros. rewrite repeat_length.
  destruct (Nat.eqb n (length sectors)) eqn:Es; [|split; reflexivity].
  apply Nat.eqb_eq in Es. destruct Hbad as [Hy|Hs]; [|congruence].
  cbn [bind]. unfold np_sub. rewrite (same_shape_eye n A Hsq).
  cbn [bind]. rewrite (sub_eye_table n A Hsq). unfold np_dot.
  assert (Hf : forallb (fun row : list Qc => Nat.eqb (length row) (length y))
                 (map (fun i => map (fun j => nth j (nth i A []) 0 - delta i j)
                                    (seq 0 n)) (seq 0 n)) = false).
  { apply forallb_map_none.
    - destruct n; [lia|discriminate].
    - intros i. rewrite length_map, length_seq.
      apply Nat.eqb_neq. congruence. }
  rewrite Hf. split; reflexivity.
Qed.

Lemma dynamics_reject_wrong_dimensions_witness :
  economic_dynamics_ode [1; 1; 1] 0 [[qz 1; qz 2]; [qz 3; qz 4]]
                        ["S1"; "S2"] [("S2", (0, half, 1))]
    = Raise ValueError /\
  economic_dynamics_ode_rec [1; 1; 1] 0 [[qz 1; qz 2]; [qz 3; qz 4]]
                            ["S1"; "S2"] [("S2", (0, half, 1))] []
    = Raise ValueError.
Proof.
  apply (dynamics_reject_wrong_dimensions [1; 1; 1] 0
           [[qz 1; qz 2]; [qz 3; qz 4]] ["S1"; "S2"]
           [("S2", (0, half, 1))] [] 2);
    [reflexivity|lia|left; simpl; lia].
Defined.

(** X11.  A square frame whose index repeats a label still builds a model,
    but its [sectors] are fewer than the rows of its matrix, so both
    right-hand sides raise [ValueError] on the model's matrix and sectors for
    every state, time and specs: such a frame cannot be simulated. *)
Theorem repeated_label_blocks_dynamics (df : DataFrame) (demand : demand_arg)
    (type : string) (n : nat) :
  let d := match demand with Unit => ones (df_len df) | Demand v => v end in
  square n (df_values df) = true ->
  length (df_index df) = n ->
  length d = n ->
  nodupb (df_index df) = false ->
  String.eqb type "Upstream" || String.eqb type "Downstream" = true ->
  exists m a,
    LeonTradeModel.init df demand type = Ok m /\
    LeonTradeModel.get_A m = Ok a /\
    (length (LeonTradeModel.sectors m) < length a)%nat /\
    forall y t shock recovery,
      economic_dynamics_ode y t a (LeonTradeModel.sectors m) shock
        = Raise ValueError /\
      economic_dynamics_ode_rec y t a (LeonTradeModel.sectors m) shock recovery
        = Raise ValueError.
Proof.
  intros d Hsq Hidx Hd Hdup Htype.
  assert (Hrect : rectangular (length d) (df_values df) = true).
  { unfold square in Hsq. apply andb_true_iff in Hsq as [_ H]. now rewrite Hd. }
  assert (Hinit : exists m,
            LeonTradeModel.init df demand type = Ok m /\
            LeonTradeModel.sectors m = unique (df_index df) /\
            LeonTradeModel.A m =
              (if String.eqb type "Upstream" then Some (df_values df)
               else if String.eqb type "Downstream"
                    then Some (transpose (df_values df)) else None)).
  { unfold LeonTradeModel.init. fold d.
    rewrite (np_dot_rectangular _ _ Hrect). cbn [bind].
    eexists. split; [reflexivity|]. split; reflexivity. }
  destruct Hinit as (m & Hinit & Hsec & HA).
  assert (Ha : exists a, LeonTradeModel.A m = Some a /\ square n a = true).
  { destruct (String.eqb type "Upstream").
    - exists (df_values df). now split.
    - destruct (String.eqb type "Downstream"); [|discriminate].
      exists (transpose (df_values df)). split; [exact HA|].
      now apply transpose_square. }
  destruct Ha as (a & HAa & Hsqa).
  destruct (square_rows n a Hsqa) as [Hlen _].
  pose proof (unique_shorter (df_index df) Hdup) as Hshort.
  exists m, a. split; [exact Hinit|]. split.
  { unfold LeonTradeModel.get_A. now rewrite HAa. }
  split; [rewrite Hsec, Hlen; lia|].
  intros y t shock recovery.
  unfold economic_dynamics_ode, economic_dynamics_ode_rec, new_series, zeros.
  rewrite repeat_length, Hlen, Hsec.
  destruct (Nat.eqb n (length (unique (df_index df)))) eqn:E;
    [|split; reflexivity].
  apply Nat.eqb_eq in E. lia.
Qed.

Lemma repeated_label_blocks_dynamics_witness :
  exists m a,
    LeonTradeModel.init
      {| df_index := ["S1"; "S1"];
         df_values := [[qz 1; qz 2]; [qz 3; qz 4]] |} Unit "Upstream" = Ok m /\
    LeonTradeModel.get_A m = Ok a /\
    (length (LeonTradeModel.sectors m) < length a)%nat /\
    forall y t shock recovery,
      economic_dynamics_ode y t a (LeonTradeModel.sectors m) shock
        = Raise ValueError /\
      economic_dynamics_ode_rec y t a (LeonTradeModel.sectors m) shock recovery
        = Raise ValueError.
Proof.
  apply (repeated_label_blocks_dynamics
           {| df_index := ["S1"; "S1"];
              df_values := [[qz 1; qz 2]; [qz 3; qz 4]] |} Unit "Upstream" 2);
    reflexivity.
Defined.

(** ** From the model to the right-hand side *)

(** The entry the shock spec holds for a sector: its override, else the
    economy-wide entry. *)
Lemma evaluate_shock_spec (self : LeonTradeModel.t) (ov spec : dict triple)
    (g : triple) (t : Qc) :
  LeonTradeModel.shock_impulse self (Some ov) g = Ok spec ->
  evaluate spec t (LeonTradeModel.sectors self)
  = map (fun s =>
           let e := match dict_get ov s with
                    | Some x => x
                    | None => LeonTradeModel.general_entry g
                    end in
           if active t e then magnitude e else 0)
        (LeonTradeModel.sectors self).
Proof.
  intros Hs. destruct (shock_impulse_entries self ov g) as (spec' & Hs' & E).
  rewrite Hs in Hs'. injection Hs' as <-.
  unfold evaluate. apply map_ext_in. intros s Hin.
  rewrite E. apply mem_In in Hin.
  destruct (dict_get ov s); [reflexivity|]. now rewrite Hin.
Qed.

(** X12.  The spec [shock_impulse] builds from overrides on sectors of the
    economy is always accepted by the shock-only right-hand side: on the
    model's distinct sectors and a square matrix of their number, the value
    is [(A - I) y] plus, for each sector, the magnitude of its override if
    it has one and of the economy-wide entry otherwise, while that entry is
    active. *)
Theorem built_spec_drives_dynamics (self : LeonTradeModel.t)
    (ov : dict triple) (g : triple) (A : matrix) (y : vec) (t : Qc)
    (n : nat) :
  nodupb (LeonTradeModel.sectors self) = true ->
  names_known (LeonTradeModel.sectors self) ov = true ->
  square n A = true ->
  length (LeonTradeModel.sectors self) = n ->
  length y = n ->
  exists spec,
    LeonTradeModel.shock_impulse self (Some ov) g = Ok spec /\
    economic_dynamics_ode y t A (LeonTradeModel.sectors self) spec
    = Ok (propagation_law A y
            (map (fun s =>
                    let e := match dict_get ov s with
                             | Some x => x
                             | None => LeonTradeModel.general_entry g
                             end in
                    if active t e then magnitude e else 0)
                 (LeonTradeModel.sectors self))).
Proof.
  intros Hnd Hknown Hsq Hsec Hy.
  destruct (shock_spec_known self ov g Hnd Hknown)
    as (spec & Hs & _ & Hwf & Hkn).
  exists spec. split; [exact Hs|].
  rewrite <- (evaluate_shock_spec self ov spec g t Hs).
  destruct (dynamics_values y t A (LeonTradeModel.sectors self) spec [] n)
    as [H _]; try assumption; reflexivity.
Qed.

Lemma built_spec_drives_dynamics_witness :
  exists spec,
    LeonTradeModel.shock_impulse two_sector_model
      (Some [("S2", (0, half, 1))]) (0, qz 6, half) = Ok spec /\
    economic_dynamics_ode [1; 1] 0 [[qz 1; qz 2]; [qz 3; qz 4]]
                          (LeonTradeModel.sectors two_sector_model) spec
    = Ok (propagation_law [[qz 1; qz 2]; [qz 3; qz 4]] [1; 1]
            (map (fun s =>
                    let e := match dict_get [("S2", (0, half, 1))] s with
                             | Some x => x
                             | None => LeonTradeModel.general_entry (0, qz 6, half)
                             end in
                    if active 0 e then magnitude e else 0)
                 (LeonTradeModel.sectors two_sector_model))).
Proof.
  apply (built_spec_drives_dynamics two_sector_model [("S2", (0, half, 1))]
           (0, qz 6, half) [[qz 1; qz 2]; [qz 3; qz 4]] [1; 1] 0 2);
    reflexivity.
Defined.

(** ** The order of the entries of a spec *)

Lemma nodupb_NoDup (l : list label) : nodupb l = true <-> NoDup l.
Proof.
  induction l as [|a r IH]; simpl.
  - split; [constructor|reflexivity].
  - rewrite andb_true_iff, negb_true_iff, IH. split.
    + intros [Ha Hr]. constructor; [|exact Hr].
      intros Hin. apply mem_In in Hin. congruence.
    + intros H. inversion H as [|? ? Ha Hr]; subst. split; [|exact Hr].
      destruct (mem a r) eqn:E; [|reflexivity].
      apply mem_In in E. contradiction.
Qed.

Lemma In_dict_get {V : Type} (d : dict V) (k : label) (v : V) :
  dict_wf d = true -> In (k, v) d -> dict_get d k = Some v.
Proof.
  unfold dict_wf. induction d as [|[k0 v0] r IH]; intros Hwf Hin;
    [contradiction|].
  simpl in *. apply andb_true_iff in Hwf as [Hk0 Hwf].
  apply negb_true_iff in Hk0.
  destruct Hin as [Heq|Hin].
  - injection Heq as -> ->. now rewrite String.eqb_refl.
  - destruct (String.eqb k0 k) eqn:E; [|now apply IH].
    apply String.eqb_eq in E; subst k0. exfalso.
    assert (Hm : mem k (keys r) = true)
      by (apply mem_In; apply (in_map fst) in Hin; exact Hin).
    congruence.
Qed.

(** Two dictionaries with the same entries, in any order. *)
Lemma permuted_dict {V : Type} (d d' : dict V) :
  Permutation d d' -> dict_wf d = true ->
  dict_wf d' = true /\ forall k, dict_get d' k = dict_get d k.
Proof.
  intros Hp Hwf.
  assert (Hwf' : dict_wf d' = true).
  { unfold dict_wf in *. apply nodupb_NoDup. apply nodupb_NoDup in Hwf.
    eapply Permutation_NoDup; [|exact Hwf]. unfold keys.
    now apply Permutation_map. }
  split; [exact Hwf'|]. intros k.
  destruct (dict_get d k) as [v|] eqn:E.
  - apply In_dict_get; [exact Hwf'|].
    eapply Permutation_in; [exact Hp|]. now apply dict_get_In.
  - destruct (dict_get d' k) as [v'|] eqn:E'; [|reflexivity].
    apply dict_get_In in E'. apply (Permutation_in _ (Permutation_sym Hp)) in E'.
    apply (In_dict_get d k v' Hwf) in E'. congruence.
Qed.

(** X13.  The right-hand sides do not depend on the order in which the
    entries of the specs were inserted: on well-shaped inputs, permuting the
    entries of the shock spec and of the recovery spec changes neither
    value. *)
Theorem dynamics_ignore_entry_order (y : vec) (t : Qc) (A : matrix)
    (sectors : list label) (shock shock' recovery recovery' : dict triple)
    (n : nat) :
  square n A = true -> length y = n -> length sectors = n ->
  dict_wf shock = true -> names_known sectors shock = true ->
  dict_wf recovery = true -> names_known sectors recovery = true ->
  Permutation shock shock' -> Permutation recovery recovery' ->
  economic_dynamics_ode y t A sectors shock'
    = economic_dynamics_ode y t A sectors shock /\
  economic_dynamics_ode_rec y t A sectors shock' recovery'
    = economic_dynamics_ode_rec y t A sectors shock recovery.
Proof.
  intros Hsq Hy Hsec Hws Hks Hwr Hkr Hps Hpr.
  destruct (permuted_dict shock shock' Hps Hws) as [Hws' Egs].
  destruct (permuted_dict recovery recovery' Hpr Hwr) as [Hwr' Egr].
  assert (Hkn : forall d d' : dict triple, Permutation d d' ->
            names_known sectors d = true -> names_known sectors d' = true).
  { intros d d' Hp H. unfold names_known in *. rewrite forallb_forall in *.
    intros k Hk. apply H. eapply Permutation_in; [|exact Hk].
    apply Permutation_sym. unfold keys. now apply Permutation_map. }
  assert (Hev : forall d d' : dict triple,
            (forall k, dict_get d' k = dict_get d k) ->
            evaluate d' t sectors = evaluate d t sectors).
  { intros d d' E. unfold evaluate. apply map_ext. intros s. now rewrite E. }
  destruct (dynamics_values y t A sectors shock recovery n) as [H1 H2];
    try assumption.
  destruct (dynamics_values y t A sectors shock' recovery' n) as [H1' H2'];
    try assumption; try (eapply Hkn; eassumption).
  rewrite H1, H2, H1', H2'.
  rewrite (Hev shock shock' Egs), (Hev recovery recovery' Egr).
  split; reflexivity.
Qed.

Lemma dynamics_ignore_entry_order_witness :
  economic_dynamics_ode [1; 1] 0 [[qz 1; qz 2]; [qz 3; qz 4]] ["S1"; "S2"]
                        [("S1", (0, 1, half)); ("S2", (0, half, 1))]
    = economic_dynamics_ode [1; 1] 0 [[qz 1; qz 2]; [qz 3; qz 4]] ["S1"; "S2"]
                            [("S2", (0, half, 1)); ("S1", (0, 1, half))] /\
  economic_dynamics_ode_rec [1; 1] 0 [[qz 1; qz 2]; [qz 3; qz 4]] ["S1"; "S2"]
                            [("S1", (0, 1, half)); ("S2", (0, half, 1))] []
    = economic_dynamics_ode_rec [1; 1] 0 [[qz 1; qz 2]; [qz 3; qz 4]]
                                ["S1"; "S2"]
                                [("S2", (0, half, 1)); ("S1", (0, 1, half))] [].
Proof.
  apply (dynamics_ignore_entry_order [1; 1] 0 [[qz 1; qz 2]; [qz 3; qz 4]]
           ["S1"; "S2"] [("S2", (0, half, 1)); ("S1", (0, 1, half))]
           [("S1", (0, 1, half)); ("S2", (0, half, 1))] [] [] 2);
    try reflexivity; apply perm_swap.
Defined.

(** ** Loss of a scaled trajectory *)

Lemma simps_term_scale (c a b d p q : Qc) :
  simps_term (c * a) (c * b) (c * d) p q = c * simps_term a b d p q.
Proof.
  unfold simps_term, Qcdiv. ring.
Qed.

Lemma simps_terms_scale (c : Qc) (l0 l1 l2 h0 h1 : vec) :
  vsum (simps_terms (map (Qcmult c) l0) (map (Qcmult c) l1)
                    (map (Qcmult c) l2) h0 h1)
  = c * vsum (simps_terms l0 l1 l2 h0 h1).
Proof.
  revert l1 l2 h0 h1.
  induction l0 as [|a l0 IH]; intros l1 l2 h0 h1.
  - simpl. unfold vsum. simpl. ring.
  - destruct l1 as [|b l1], l2 as [|d l2], h0 as [|p h0], h1 as [|q h1];
      simpl; try (unfold vsum; simpl; ring).
    rewrite !vsum_cons, IH, simps_term_scale. ring.
Qed.

Lemma basic_simps_scale (c : Qc) (y : vec) (start stop : Z) (x : vec) :
  basic_simps (map (Qcmult c) y) start stop x = c * basic_simps y start stop x.
Proof.
  unfold basic_simps. rewrite !slice2_map. apply simps_terms_scale.
Qed.

(** Simpson's rule of a scaled column. *)
Lemma simps_scale (c : Qc) (y x : vec) (a : Qc) :
  simps y x = Ok a -> simps (map (Qcmult c) y) x = Ok (c * a).
Proof.
  unfold simps. rewrite !length_map.
  destruct (negb (Nat.eqb (length x) (length y))); [discriminate|].
  destruct (Nat.even (length y)).
  - destruct (Nat.eqb (length y) 0); [discriminate|].
    intros Ha. injection Ha as <-. f_equal.
    rewrite !basic_simps_scale.
    rewrite !(nth_map_default (Qcmult c) 0 0) by ring.
    unfold Qcdiv. ring.
  - intros Ha. injection Ha as <-. f_equal. apply basic_simps_scale.
Qed.

Lemma column_scale (c : Qc) (sol : matrix) (i : nat) :
  column i (scale_array c sol) = map (Qcmult c) (column i sol).
Proof.
  unfold column, scale_array. rewrite !map_map. apply map_ext. intros row.
  apply (nth_map_default (Qcmult c) 0 0). ring.
Qed.

Lemma rectangular_scale (c : Qc) (k : nat) (sol : matrix) :
  rectangular k (scale_array c sol) = rectangular k sol.
Proof.
  unfold rectangular, scale_array.
  induction sol as [|r s IH]; simpl; [reflexivity|].
  now rewrite length_map, IH.
Qed.

Section ScaledLoss.

Variables (sol : matrix) (time_vec : vec) (c : Qc).
Hypothesis Hgrid : length time_vec = length sol.
Hypothesis Hrows : (0 < length sol)%nat.

Lemma scaled_grid : length time_vec = length (scale_array c sol).
Proof. unfold scale_array. now rewrite length_map. Qed.

Lemma scaled_rows : (0 < length (scale_array c sol))%nat.
Proof. unfold scale_array. now rewrite length_map. Qed.

Lemma column_loss_scale (i : nat) :
  column_loss (scale_array c sol) time_vec i = c * column_loss sol time_vec i.
Proof.
  unfold column_loss at 1. rewrite column_scale.
  now rewrite (simps_scale c _ _ _ (column_loss_ok sol time_vec Hgrid Hrows i)).
Qed.

Lemma scaled_sum (l : list nat) (a : Qc) :
  fold_left (fun acc n => acc + column_loss (scale_array c sol) time_vec n)
            l (c * a)
  = c * fold_left (fun acc n => acc + column_loss sol time_vec n) l a.
Proof.
  revert a. induction l as [|n l IH]; intros a; simpl; [reflexivity|].
  rewrite column_loss_scale, <- IH. f_equal. ring.
Qed.

End ScaledLoss.

(** X14.  Scaling a trajectory by a factor [c] (the script plots and reports
    [sol * 100]) scales every loss figure by [c]: the scalar total loss and,
    for distinct labels, each per-sector loss, with the labels unchanged. *)
Theorem loss_of_scaled_trajectory (sol : matrix) (time_vec : vec)
    (labels : list label) (c : Qc) (k : nat) :
  rectangular k sol = true ->
  length time_vec = length sol ->
  (0 < length sol)%nat ->
  nodupb labels = true ->
  length labels = k ->
  exists x r,
    total_out_loss sol time_vec false None = Ok (Total x) /\
    total_out_loss (scale_array c sol) time_vec false None
      = Ok (Total (c * x)) /\
    total_out_loss sol time_vec true (Some labels) = Ok (PerSector r) /\
    total_out_loss (scale_array c sol) time_vec true (Some labels)
      = Ok (PerSector (map (fun e => (fst e, c * snd e)) r)).
Proof.
  intros Hrect Hgrid Hrows _ Hlab.
  pose proof (scaled_grid sol time_vec c Hgrid) as Hgrid'.
  pose proof (scaled_rows sol c Hrows) as Hrows'.
  assert (Hrect' : rectangular k (scale_array c sol) = true)
    by (now rewrite rectangular_scale).
  assert (Hin : forall n, In n labels ->
            mem n (s_index (combine labels (zeros k))) = true).
  { intros n Hn. rewrite (s_index_fresh k labels Hlab). now apply mem_In. }
  eexists. eexists. repeat split.
  - unfold total_out_loss. rewrite (ncols_rect sol time_vec k Hrect Hgrid Hrows).
    rewrite (scalar_loop_sum sol time_vec Hgrid Hrows). reflexivity.
  - unfold total_out_loss.
    rewrite (ncols_rect _ time_vec k Hrect' Hgrid' Hrows').
    rewrite (scalar_loop_sum _ time_vec Hgrid' Hrows'). cbn [bind].
    do 2 f_equal.
    replace (Q2Qc 0) with (c * 0) at 1 by ring.
    apply (scaled_sum sol time_vec c Hgrid Hrows).
  - unfold total_out_loss. rewrite (ncols_rect sol time_vec k Hrect Hgrid Hrows).
    rewrite Hlab, Nat.eqb_refl. cbn [negb].
    rewrite (new_series_ok k labels Hlab). cbn [bind].
    rewrite (sector_loop_entries sol time_vec Hgrid Hrows _ _ _ Hin).
    reflexivity.
  - unfold total_out_loss.
    rewrite (ncols_rect _ time_vec k Hrect' Hgrid' Hrows').
    rewrite Hlab, Nat.eqb_refl. cbn [negb].
    rewrite (new_series_ok k labels Hlab). cbn [bind].
    rewrite (sector_loop_entries _ time_vec Hgrid' Hrows' _ _ _ Hin).
    cbn [bind]. do 2 f_equal. rewrite map_map. apply map_ext_in.
    intros [a b] Hab. cbn [fst snd].
    rewrite (column_loss_scale sol time_vec c Hgrid Hrows).
    destruct (mem a labels); [reflexivity|].
    f_equal. apply in_combine_r in Hab. unfold zeros in Hab.
    apply repeat_spec in Hab. subst b. ring.
Qed.

Lemma loss_of_scaled_trajectory_witness :
  exists x r,
    total_out_loss [[qz 0; qz 1]; [qz 1; qz 1]; [qz 4; qz 0]]
                   [qz 0; qz 1; qz 2] false None = Ok (Total x) /\
    total_out_loss (scale_array hundred
                      [[qz 0; qz 1]; [qz 1; qz 1]; [qz 4; qz 0]])
                   [qz 0; qz 1; qz 2] false None
      = Ok (Total (hundred * x)) /\
    total_out_loss [[qz 0; qz 1]; [qz 1; qz 1]; [qz 4; qz 0]]
                   [qz 0; qz 1; qz 2] true (Some ["S1"; "S2"])
      = Ok (PerSector r) /\
    total_out_loss (scale_array hundred
                      [[qz 0; qz 1]; [qz 1; qz 1]; [qz 4; qz 0]])
                   [qz 0; qz 1; qz 2] true (Some ["S1"; "S2"])
      = Ok (PerSector (map (fun e => (fst e, hundred * snd e)) r)).
Proof.
  apply (loss_of_scaled_trajectory
           [[qz 0; qz 1]; [qz 1; qz 1]; [qz 4; qz 0]] [qz 0; qz 1; qz 2]
           ["S1"; "S2"] hundred 2);
    [reflexivity|reflexivity|simpl; lia|reflexivity|reflexivity].
Defined.

(** ** Failures of the loss *)

Lemma simps_wrong_grid (y x : vec) :
  length x <> length y -> simps y x = Raise ValueError.
Proof.
  intros H. unfold simps. apply Nat.eqb_neq in H. now rewrite H.
Qed.

Lemma scalar_loop_raised (sol : matrix) (time_vec : vec) (l : list nat)
    (e : exn) :
  fold_left (add_column_loss sol time_vec) l (Raise e) = Raise e.
Proof.
  induction l as [|n l IH]; simpl; [reflexivity|exact IH].
Qed.

Lemma sector_loop_raised (sol : matrix) (time_vec : vec)
    (labels ls : list label) (e : exn) :
  fold_left (set_sector_loss sol time_vec labels) ls (Raise e) = Raise e.
Proof.
  induction ls as [|n ls IH]; simpl; [reflexivity|exact IH].
Qed.

(** X15.  A time grid that does not have one sample per row of the
    trajectory makes [total_out_loss] raise [ValueError] in both modes, as
    soon as the trajectory has a column; so does, in per-sector mode, a list
    of labels that does not have one label per column. *)
Theorem loss_rejects_wrong_grid (sol : matrix) (time_vec : vec)
    (labels other : list label) :
  (0 < ncols sol)%nat ->
  length time_vec <> length sol ->
  length labels = ncols sol ->
  length other <> ncols sol ->
  total_out_loss sol time_vec false None = Raise ValueError /\
  total_out_loss sol time_vec true (Some labels) = Raise ValueError /\
  total_out_loss sol time_vec true (Some other) = Raise ValueError.
Proof.
  intros Hcols Hgrid Hlab Hother.
  assert (Hcol : forall i, simps (column i sol) time_vec = Raise ValueError).
  { intros i. apply simps_wrong_grid. unfold column. now rewrite length_map. }
  unfold total_out_loss. repeat split.
  - destruct (ncols sol) as [|k] eqn:Hk; [lia|].
    rewrite <- cons_seq. cbn [fold_left].
    unfold add_column_loss at 2. cbn [bind]. rewrite Hcol. cbn [bind].
    now rewrite scalar_loop_raised.
  - rewrite Hlab, Nat.eqb_refl. cbn [negb].
    rewrite <- Hlab, (new_series_ok _ labels eq_refl). cbn [bind].
    destruct labels as [|n ls]; [simpl in Hlab; lia|].
    cbn [fold_left]. unfold set_sector_loss at 2. cbn [bind].
    unfold loc_column. rewrite Hcol. cbn [bind].
    now rewrite sector_loop_raised.
  - apply Nat.eqb_neq in Hother. rewrite Nat.eqb_sym, Hother. reflexivity.
Qed.

Lemma loss_rejects_wrong_grid_witness :
  total_out_loss [[qz 0; qz 1]; [qz 1; qz 1]; [qz 4; qz 0]]
                 [qz 0; qz 1] false None = Raise ValueError /\
  total_out_loss [[qz 0; qz 1]; [qz 1; qz 1]; [qz 4; qz 0]]
                 [qz 0; qz 1] true (Some ["S1"; "S2"]) = Raise ValueError /\
  total_out_loss [[qz 0; qz 1]; [qz 1; qz 1]; [qz 4; qz 0]]
                 [qz 0; qz 1] true (Some ["S1"]) = Raise ValueError.
Proof.
  apply (loss_rejects_wrong_grid [[qz 0; qz 1]; [qz 1; qz 1]; [qz 4; qz 0]]
           [qz 0; qz 1] ["S1"; "S2"] ["S1"]);
    [unfold ncols; simpl; lia|simpl; lia|reflexivity|unfold ncols; simpl; lia].
Defined.

(** ** A run without any push *)

(** A model on a square frame, for either direction. *)
Lemma init_square (df : DataFrame) (demand : demand_arg) (type : string)
    (n : nat) :
  let d := match demand with Unit => ones (df_len df) | Demand v => v end in
  square n (df_values df) = true ->
  length d = n ->
  String.eqb type "Upstream" || String.eqb type "Downstream" = true ->
  exists m a,
    LeonTradeModel.init df demand type = Ok m /\
    LeonTradeModel.df_A m = df /\
    LeonTradeModel.sectors m = unique (df_index df) /\
    LeonTradeModel.A m = Some a /\
    square n a = true.
Proof.
  intros d Hsq Hd Htype.
  assert (Hrect : rectangular (length d) (df_values df) = true).
  { unfold square in Hsq. apply andb_true_iff in Hsq as [_ H]. now rewrite Hd. }
  unfold LeonTradeModel.init. fold d.
  rewrite (np_dot_rectangular _ _ Hrect). cbn [bind].
  destruct (String.eqb type "Upstream").
  - eexists. exists (df_values df). repeat split. exact Hsq.
  - destruct (String.eqb type "Downstream"); [|discriminate].
    eexists. exists (transpose (df_values df)). repeat split.
    now apply transpose_square.
Qed.

Lemma Qc_eq_bool_refl (x : Qc) : Qc_eq_bool x x = true.
Proof.
  unfold Qc_eq_bool. destruct (Qc_eq_dec x x); [reflexivity|congruence].
Qed.

(** A spec built from quiet overrides and an economy-wide triple of zero
    magnitude is quiet. *)
Lemma quiet_built (self : LeonTradeModel.t) (ov spec : dict triple)
    (g : triple) :
  quiet ov = true -> magnitude g = 0 ->
  LeonTradeModel.shock_impulse self (Some ov) g = Ok spec ->
  quiet spec = true.
Proof.
  intros Hq Hg Hs.
  destruct (shock_impulse_entries self ov g) as (spec' & Hs' & E).
  rewrite Hs in Hs'. injection Hs' as <-.
  assert (Hwf : dict_wf spec = true).
  { unfold LeonTradeModel.shock_impulse in Hs. injection Hs as <-.
    apply dict_wf_overlay. unfold LeonTradeModel.fill. now apply dict_wf_fill. }
  unfold quiet in *. rewrite forallb_forall in *. intros [k x] Hin.
  apply (In_dict_get spec k x Hwf) in Hin. rewrite E in Hin.
  destruct (dict_get ov k) as [x'|] eqn:Eo.
  - injection Hin as ->. apply (Hq (k, x)). now apply dict_get_In.
  - destruct (mem k (LeonTradeModel.sectors self)); [|discriminate].
    injection Hin as <-. cbn [snd]. unfold LeonTradeModel.general_entry.
    unfold magnitude at 1. cbn [snd]. rewrite Hg.
    now rewrite Qc_eq_bool_refl.
Qed.

(** The trajectory from rest under a quiet spec. *)
Lemma trajectory_at_rest (m : method) (A : matrix) (sectors : list label)
    (spec : dict triple) (grid : list Qc) (n : nat) :
  square n A = true -> length sectors = n ->
  dict_wf spec = true -> names_known sectors spec = true ->
  quiet spec = true ->
  odeint m (fun y t => economic_dynamics_ode y t A sectors spec)
         (zeros n) grid
  = Ok (repeat (zeros n) (length grid)).
Proof.
  intros Hsq Hsec Hwf Hknown Hq.
  destruct grid as [|t0 rest]; [reflexivity|].
  unfold odeint.
  replace (length (zeros n)) with n by (unfold zeros; now rewrite repeat_length).
  apply odeint_from_rest.
  - intros t. now apply rhs_at_rest.
  - constructor; [reflexivity|constructor].
Qed.

Lemma column_of_rest (n N i : nat) :
  column i (repeat (zeros n) N) = zeros N.
Proof.
  unfold column, zeros at 2. induction N as [|N IH]; simpl; [reflexivity|].
  now rewrite IH, nth_zeros.
Qed.

Lemma rectangular_rest (n N : nat) : rectangular n (repeat (zeros n) N) = true.
Proof.
  unfold rectangular. induction N as [|N IH]; simpl; [reflexivity|].
  rewrite IH. unfold zeros. now rewrite repeat_length, Nat.eqb_refl.
Qed.

Lemma sum_of_nothing (l : list nat) (a : Qc) :
  fold_left (fun acc _ => acc + 0) l a = a.
Proof.
  revert a. induction l as [|i l IH]; intros a; simpl; [reflexivity|].
  now rewrite IH, Qcplus_0_r.
Qed.

(** The losses of a trajectory that stays at rest. *)
Lemma loss_at_rest (n : nat) (grid : vec) (labels : list label) :
  (0 < length grid)%nat -> length labels = n ->
  total_out_loss (repeat (zeros n) (length grid)) grid true (Some labels)
    = Ok (PerSector (combine labels (zeros n))) /\
  total_out_loss (repeat (zeros n) (length grid)) grid false None
    = Ok (Total 0).
Proof.
  intros Hpos Hlab.
  set (sol := repeat (zeros n) (length grid)).
  assert (Hgrid : length grid = length sol)
    by (unfold sol; now rewrite repeat_length).
  assert (Hrows : (0 < length sol)%nat) by (now rewrite <- Hgrid).
  assert (Hrect : rectangular n sol = true) by apply rectangular_rest.
  assert (Hloss : forall i, column_loss sol grid i = 0).
  { intros i. unfold column_loss, sol. rewrite column_of_rest.
    now rewrite (simps_zeros grid Hpos). }
  unfold total_out_loss.
  rewrite (ncols_rect sol grid n Hrect Hgrid Hrows). split.
  - rewrite Hlab, Nat.eqb_refl. cbn [negb].
    rewrite (new_series_ok n labels Hlab). cbn [bind].
    rewrite (sector_loop_entries sol grid Hgrid Hrows).
    + cbn [bind]. do 2 f_equal. rewrite <- (map_id (combine labels (zeros n))) at 2.
      apply map_ext_in. intros [a b] Hab. cbn [fst snd]. f_equal.
      rewrite Hloss. apply in_combine_r in Hab. unfold zeros in Hab.
      apply repeat_spec in Hab. subst b. now destruct (mem a labels).
    + intros k Hk. rewrite (s_index_fresh n labels Hlab). now apply mem_In.
  - rewrite (scalar_loop_sum sol grid Hgrid Hrows). cbn [bind]. do 2 f_equal.
    transitivity (fold_left (fun acc (_ : nat) => acc + 0) (seq 0 n) 0).
    + clear -Hloss. generalize (Q2Qc 0) at 1 3 as a. 
      induction (seq 0 n) as [|i l IH]; intros a; simpl; [reflexivity|].
      now rewrite Hloss, IH.
    + apply sum_of_nothing.
Qed.

(** X16.  A run in which nothing pushes: on a square frame with distinct
    labels and a valid direction, with an economy-wide triple of zero
    magnitude and overrides on known sectors that all have a zero magnitude
    or an empty interval, the model is built, the shock spec is built, the
    trajectory is zero at every sample for every integrator of the kind
    described above, every per-sector loss is zero and the total loss is
    zero. *)
Theorem quiet_run_loses_nothing (df : DataFrame) (demand : demand_arg)
    (type : string) (ov : dict triple) (g : triple) (meth : method)
    (grid : list Qc) (n : nat) :
  let d := match demand with Unit => ones (df_len df) | Demand v => v end in
  square n (df_values df) = true ->
  length (df_index df) = n ->
  nodupb (df_index df) = true ->
  length d = n ->
  String.eqb type "Upstream" || String.eqb type "Downstream" = true ->
  names_known (df_index df) ov = true ->
  quiet ov = true ->
  magnitude g = 0 ->
  (0 < length grid)%nat ->
  exists m spec sol,
    LeonTradeModel.init df demand type = Ok m /\
    LeonTradeModel.shock_impulse m (Some ov) g = Ok spec /\
    run_shock meth m spec grid = Ok sol /\
    sol = repeat (zeros n) (length grid) /\
    total_out_loss sol grid true (Some (LeonTradeModel.sectors m))
      = Ok (PerSector (combine (LeonTradeModel.sectors m) (zeros n))) /\
    total_out_loss sol grid false None = Ok (Total 0).
Proof.
  intros d Hsq Hidx Hnd Hd Htype Hknown Hq Hg Hpos.
  destruct (init_square df demand type n Hsq Hd Htype)
    as (m & a & Hinit & Hdf & Hsec & HA & Hsqa).
  assert (Hsec' : LeonTradeModel.sectors m = df_index df).
  { rewrite Hsec. apply unique_acc_nodup; [exact Hnd|reflexivity]. }
  assert (Hnd' : nodupb (LeonTradeModel.sectors m) = true) by (now rewrite Hsec').
  assert (Hknown' : names_known (LeonTradeModel.sectors m) ov = true)
    by (now rewrite Hsec').
  destruct (shock_spec_known m ov g Hnd' Hknown') as (spec & Hs & _ & Hwf & Hkn).
  pose proof (quiet_built m ov spec g Hq Hg Hs) as Hqs.
  assert (Hlen : length (LeonTradeModel.sectors m) = n) by (now rewrite Hsec').
  exists m, spec, (repeat (zeros n) (length grid)).
  split; [exact Hinit|]. split; [exact Hs|]. split.
  - unfold run_shock, LeonTradeModel.get_A. rewrite HA. cbn [bind].
    rewrite Hdf. unfold df_len. rewrite Hidx.
    now apply trajectory_at_rest.
  - split; [reflexivity|]. now apply loss_at_rest.
Qed.

Lemma quiet_run_loses_nothing_witness :
  exists m spec sol,
    LeonTradeModel.init two_sector_frame Unit "Downstream" = Ok m /\
    LeonTradeModel.shock_impulse m (Some [("S2", (1, 0, 1))]) (0, qz 6, 0)
      = Ok spec /\
    run_shock euler m spec [0; half; 1] = Ok sol /\
    sol = repeat (zeros 2) (length [0; half; 1]) /\
    total_out_loss sol [0; half; 1] true (Some (LeonTradeModel.sectors m))
      = Ok (PerSector (combine (LeonTradeModel.sectors m) (zeros 2))) /\
    total_out_loss sol [0; half; 1] false None = Ok (Total 0).
Proof.
  apply (quiet_run_loses_nothing two_sector_frame Unit "Downstream"
           [("S2", (1, 0, 1))] (0, qz 6, 0) euler [0; half; 1] 2);
    try reflexivity. simpl. lia.
Defined.

(** ** The time grid *)

Lemma qn_nonzero (k : nat) : qn (S k) <> 0.
Proof.
  unfold qn, qz. intros H. apply Q2Qc_eq_iff in H.
  unfold Qeq in H. simpl in H. lia.
Qed.

Lemma qn_mult (a b : nat) : qn a * qn b = qn (a * b).
Proof.
  unfold qn, qz, Qcmult. apply Q2Qc_eq_iff. cbn [this Q2Qc].
  rewrite !Qred_correct, Nat2Z.inj_mul, inject_Z_mult. reflexivity.
Qed.

Lemma qn_inj (a b : nat) : qn a = qn b -> a = b.
Proof.
  unfold qn, qz. intros H. apply Q2Qc_eq_iff in H.
  unfold Qeq in H. simpl in H. lia.
Qed.

Lemma qn_lt (a b : nat) : (a < b)%nat -> qn a < qn b.
Proof.
  intros H. unfold qn, qz, Qclt. cbn [this Q2Qc]. rewrite !Qred_correct.
  rewrite <- Zlt_Qlt. lia.
Qed.

Lemma Qc_pos_div (x y : Qc) : 0 < x -> 0 < y -> 0 < x / y.
Proof.
  unfold Qclt, Qcdiv, Qcmult, Qcinv. cbn [this Q2Qc]. rewrite !Qred_correct.
  intros Hx Hy. apply Qmult_lt_0_compat; [exact Hx|].
  now apply Qinv_lt_0_compat.
Qed.

(** X17.  The grid of a run of [years >= 1] years has [12 * years] samples,
    starts at 0, ends at [years] and is strictly increasing; sample [i] is at
    [i * years / (12 * years - 1)] years.  Both ends being samples, the
    spacing is not one month (1/12 year). *)
Theorem time_grid_samples (years : nat) :
  (1 <= years)%nat ->
  length (time_grid years) = (years * 12)%nat /\
  nth 0 (time_grid years) 0 = 0 /\
  nth (years * 12 - 1) (time_grid years) 0 = qn years /\
  (forall i, (i < years * 12)%nat ->
     nth i (time_grid years) 0
     = qn i * (qn years / qn (years * 12 - 1))) /\
  (forall i, (S i < years * 12)%nat ->
     nth i (time_grid years) 0 < nth (S i) (time_grid years) 0) /\
  qn years / qn (years * 12 - 1) <> 1 / qn 12.
Proof.
  intros Hy.
  assert (Hm : exists k, (years * 12 = S (S k))%nat)
    by (exists (years * 12 - 2)%nat; lia).
  destruct Hm as [k Hm]. unfold time_grid, np_linspace. rewrite Hm.
  replace (S (S k) - 1)%nat with (S k) by lia.
  set (step := qn years / qn (S k)).
  set (f := fun i : nat => qn i * ((qn years - 0) / qn (S k)) + 0).
  assert (Hlen : length (map f (seq 0 (S k))) = S k)
    by (now rewrite length_map, length_seq).
  assert (Hf : forall i, f i = qn i * step)
    by (intros i; unfold f, step, Qcdiv, Qcminus; ring).
  assert (Hnth : forall i, (i < S (S k))%nat ->
            nth i (map f (seq 0 (S k)) ++ [qn years]) 0 = qn i * step).
  { intros i Hi. destruct (Nat.eq_dec i (S k)) as [->|Hne].
    - rewrite app_nth2 by lia. rewrite Hlen, Nat.sub_diag. simpl.
      unfold step. field. apply qn_nonzero.
    - rewrite app_nth1 by lia.
      rewrite (nth_indep _ 0 (f 0%nat)) by lia.
      rewrite (map_nth f), seq_nth by lia. apply Hf. }
  assert (Hstep : 0 < step).
  { unfold step. apply Qc_pos_div.
    - apply (qn_lt 0 years). lia.
    - apply (qn_lt 0 (S k)). lia. }
  split; [rewrite length_app, Hlen; simpl; lia|].
  split; [rewrite Hnth by lia; change (qn 0) with (Q2Qc 0); apply Qcmult_0_l|].
  split.
  { rewrite app_nth2 by lia. rewrite Hlen, Nat.sub_diag. reflexivity. }
  split; [exact Hnth|]. split.
  - intros i Hi. rewrite !Hnth by lia.
    apply Qcmult_lt_compat_r; [exact Hstep|]. apply qn_lt. lia.
  - fold step. intros H.
    assert (E : qn years * qn 12 = qn (S k)).
    { transitivity (step * (qn (S k) * qn 12)).
      - unfold step. field. apply qn_nonzero.
      - rewrite H. field. apply (qn_nonzero 11). }
    rewrite qn_mult in E. apply qn_inj in E. lia.
Qed.

Lemma time_grid_samples_witness :
  length (time_grid 2) = (2 * 12)%nat /\
  nth 0 (time_grid 2) 0 = 0 /\
  nth (2 * 12 - 1) (time_grid 2) 0 = qn 2 /\
  (forall i, (i < 2 * 12)%nat ->
     nth i (time_grid 2) 0 = qn i * (qn 2 / qn (2 * 12 - 1))) /\
  (forall i, (S i < 2 * 12)%nat ->
     nth i (time_grid 2) 0 < nth (S i) (time_grid 2) 0) /\
  qn 2 / qn (2 * 12 - 1) <> 1 / qn 12.
Proof.
  apply (time_grid_samples 2). lia.
Defined.

(** ** The economy-wide triple of the script *)

(** X18.  When a spread stimulus is selected, the variable passed to
    [shock_impulse] as economy-wide shock holds the stimulus: every sector
    without an override gets, in the shock spec, the stimulus triple (the
    one it also gets in the recovery spec), and the economy-wide shock panel
    has no effect on the shock spec, whatever its box and sliders say. *)
Theorem spread_stimulus_replaces_shock (network_model : LeonTradeModel.t)
    (w : widgets) (sector : label) :
  want_recovery w = true ->
  String.eqb (type_recovery w) "Spread stimulus" = true ->
  mem sector (LeonTradeModel.sectors network_model) = true ->
  dict_get (sectors_n_shocks w) sector = None ->
  exists shock recovery,
    script_shock_vec network_model w = Ok shock /\
    script_recovery_vec network_model w = Ok (Some recovery) /\
    dict_get shock sector
      = Some (genstim_start w / LeonTradeModel.twelve,
              genstim_end w / LeonTradeModel.twelve,
              genstim_percent w / hundred) /\
    dict_get recovery sector = dict_get shock sector /\
    forall checked percent first last,
      script_shock_vec network_model
        (with_shock_panel w checked percent first last) = Ok shock.
Proof.
  intros Hwant Htype Hmem Hov.
  assert (Hg : forall w', want_recovery w' = true ->
            type_recovery w' = type_recovery w ->
            genstim_start w' = genstim_start w ->
            genstim_end w' = genstim_end w ->
            genstim_percent w' = genstim_percent w ->
            script_general_shock_list w'
            = general_shock_list (genstim_start w) (genstim_end w)
                                 (genstim_percent w)).
  { intros w' H1 H2 H3 H4 H5. unfold script_general_shock_list.
    now rewrite H1, H2, Htype, H3, H4, H5. }
  pose proof (Hg w Hwant eq_refl eq_refl eq_refl eq_refl) as Hgw.
  destruct (shock_impulse_entries network_model (sectors_n_shocks w)
              (script_general_shock_list w)) as (shock & Hs & E).
  exists shock. eexists. split; [exact Hs|]. split.
  - unfold script_recovery_vec. rewrite Hwant, Htype.
    apply String.eqb_eq in Htype. rewrite Htype. cbn. reflexivity.
  - assert (Hshock : dict_get shock sector
                     = Some (genstim_start w / LeonTradeModel.twelve,
                             genstim_end w / LeonTradeModel.twelve,
                             genstim_percent w / hundred)).
    { rewrite E, Hov, Hmem, Hgw. reflexivity. }
    split; [exact Hshock|]. split.
    + rewrite Hshock. unfold LeonTradeModel.fill.
      rewrite dict_get_fill, Hmem, Hgw. reflexivity.
    + intros checked percent first last. unfold script_shock_vec.
      rewrite (Hg (with_shock_panel w checked percent first last))
        by (try reflexivity; exact Hwant).
      rewrite <- Hgw. exact Hs.
Qed.

Lemma spread_stimulus_replaces_shock_witness :
  exists shock recovery,
    script_shock_vec two_sector_model
      {| genshock_checked := true; genshock_percent := qz (-20);
         genshock_start := 0; genshock_end := qz 6;
         sectors_n_shocks := [("S2", (0, half, 1))];
         want_recovery := true; type_recovery := "Spread stimulus";
         sectors_n_stimuli := [];
         genstim_percent := qz 10; genstim_start := 0;
         genstim_end := qz 12 |} = Ok shock /\
    script_recovery_vec two_sector_model
      {| genshock_checked := true; genshock_percent := qz (-20);
         genshock_start := 0; genshock_end := qz 6;
         sectors_n_shocks := [("S2", (0, half, 1))];
         want_recovery := true; type_recovery := "Spread stimulus";
         sectors_n_stimuli := [];
         genstim_percent := qz 10; genstim_start := 0;
         genstim_end := qz 12 |} = Ok (Some recovery) /\
    dict_get shock "S1"
      = Some (0 / LeonTradeModel.twelve, qz 12 / LeonTradeModel.twelve,
              qz 10 / hundred) /\
    dict_get recovery "S1" = dict_get shock "S1" /\
    forall checked percent first last,
      script_shock_vec two_sector_model
        (with_shock_panel
           {| genshock_checked := true; genshock_percent := qz (-20);
              genshock_start := 0; genshock_end := qz 6;
              sectors_n_shocks := [("S2", (0, half, 1))];
              want_recovery := true; type_recovery := "Spread stimulus";
              sectors_n_stimuli := [];
              genstim_percent := qz 10; genstim_start := 0;
              genstim_end := qz 12 |}
           checked percent first last) = Ok shock.
Proof.
  apply (spread_stimulus_replaces_shock two_sector_model
           {| genshock_checked := true; genshock_percent := qz (-20);
              genshock_start := 0; genshock_end := qz 6;
              sectors_n_shocks := [("S2", (0, half, 1))];
              want_recovery := true; type_recovery := "Spread stimulus";
              sectors_n_stimuli := [];
              genstim_percent := qz 10; genstim_start := 0;
              genstim_end := qz 12 |} "S1");
    reflexivity.
Defined.

(** ** The panels of per-sector entries *)

Lemma distinct_five (a b c d e : label) :
  nodupb [a; b; c; d; e] = true ->
  String.eqb a b = false /\ String.eqb a c = false /\ String.eqb a d = false /\
  String.eqb a e = false /\ String.eqb b c = false /\ String.eqb b d = false /\
  String.eqb b e = false /\ String.eqb c d = false /\ String.eqb c e = false /\
  String.eqb d e = false.
Proof.
  simpl. rewrite !andb_true_iff, !negb_true_iff, !orb_false_iff.
  rewrite !(String.eqb_sym b a), !(String.eqb_sym c a), !(String.eqb_sym d a),
          !(String.eqb_sym e a), !(String.eqb_sym c b), !(String.eqb_sym d b),
          !(String.eqb_sym e b), !(String.eqb_sym d c), !(String.eqb_sym e c),
          !(String.eqb_sym e d).
  tauto.
Qed.

Lemma panel_get_set (d : panel_dict) (k k' : pykey) (v : triple) :
  panel_get (panel_set d k v) k' =
  if pykey_eqb k k' then Some v else panel_get d k'.
Proof.
  assert (Hrefl : forall a, pykey_eqb a a = true)
    by (intros [s|]; simpl; [apply String.eqb_refl|reflexivity]).
  assert (Heq : forall a b, pykey_eqb a b = true -> a = b).
  { intros [s|] [s'|]; simpl; try discriminate; [|reflexivity].
    intros H. apply String.eqb_eq in H. now subst. }
  induction d as [|[k0 v0] r IH]; simpl; [reflexivity|].
  destruct (pykey_eqb k0 k) eqn:E0; simpl.
  - apply Heq in E0; subst k0. now destruct (pykey_eqb k k').
  - rewrite IH. destruct (pykey_eqb k0 k') eqn:E1; [|reflexivity].
    apply Heq in E1; subst k0.
    destruct (pykey_eqb k k') eqn:E2; [|reflexivity].
    apply Heq in E2; subst k'. now rewrite Hrefl in E0.
Qed.

(** X19.  The shock panel gives every block shown its own entry: with five
    distinct sectors chosen, the mapping holds, for each block that is
    shown, the block's triple under the block's sector, and no entry for the
    sector of a block that is not shown. *)
Theorem shock_panel_entries (p : panel) :
  nodupb [chosen (slot_1 p); chosen (slot_2 p); chosen (slot_3 p);
          chosen (slot_4 p); chosen (slot_5 p)] = true ->
  let d := panel_sectors_n_shocks p in
  let on2 := more_2 p in
  let on3 := on2 && more_3 p in
  let on4 := on3 && more_4 p in
  let on5 := on4 && more_5 p in
  panel_get d (Name (chosen (slot_1 p))) = Some (entry_of (slot_1 p)) /\
  panel_get d (Name (chosen (slot_2 p)))
    = (if on2 then Some (entry_of (slot_2 p)) else None) /\
  panel_get d (Name (chosen (slot_3 p)))
    = (if on3 then Some (entry_of (slot_3 p)) else None) /\
  panel_get d (Name (chosen (slot_4 p)))
    = (if on4 then Some (entry_of (slot_4 p)) else None) /\
  panel_get d (Name (chosen (slot_5 p)))
    = (if on5 then Some (entry_of (slot_5 p)) else None).
Proof.
  intros H. destruct p as [s1 s2 s3 s4 s5 m2 m3 m4 m5]. cbn [slot_1 slot_2 slot_3 slot_4 slot_5 more_2 more_3 more_4 more_5] in *.
  destruct (distinct_five _ _ _ _ _ H)
    as (Hab & Hac & Had & Hae & Hbc & Hbd & Hbe & Hcd & Hce & Hde).
  pose proof (String.eqb_sym (chosen s2) (chosen s1)) as Sba.
  pose proof (String.eqb_sym (chosen s3) (chosen s1)) as Sca.
  pose proof (String.eqb_sym (chosen s4) (chosen s1)) as Sda.
  pose proof (String.eqb_sym (chosen s5) (chosen s1)) as Sea.
  pose proof (String.eqb_sym (chosen s3) (chosen s2)) as Scb.
  pose proof (String.eqb_sym (chosen s4) (chosen s2)) as Sdb.
  pose proof (String.eqb_sym (chosen s5) (chosen s2)) as Seb.
  pose proof (String.eqb_sym (chosen s4) (chosen s3)) as Sdc.
  pose proof (String.eqb_sym (chosen s5) (chosen s3)) as Sec.
  pose proof (String.eqb_sym (chosen s5) (chosen s4)) as Sed.
  rewrite Hab in Sba. rewrite Hac in Sca. rewrite Had in Sda.
  rewrite Hae in Sea. rewrite Hbc in Scb. rewrite Hbd in Sdb.
  rewrite Hbe in Seb. rewrite Hcd in Sdc. rewrite Hce in Sec.
  rewrite Hde in Sed.
  unfold panel_sectors_n_shocks, dict_literal, shock_panel_vars,
         literal_entry, read, unset, entry_of.
  destruct m2, m3, m4, m5;
    cbn [map fold_left fst snd var_sector var_val var_start var_end andb
         more_2 more_3 more_4 more_5 slot_1 slot_2 slot_3 slot_4 slot_5];
    rewrite !panel_get_set; cbn [pykey_eqb panel_get];
    rewrite ?String.eqb_refl, ?Hab, ?Hac, ?Had, ?Hae, ?Hbc, ?Hbd, ?Hbe,
            ?Hcd, ?Hce, ?Hde, ?Sba, ?Sca, ?Sda, ?Sea, ?Scb, ?Sdb, ?Seb,
            ?Sdc, ?Sec, ?Sed;
    repeat split.
Qed.

Lemma shock_panel_entries_witness :
  let p := {| slot_1 := {| chosen := "S1"; percent := qz (-20);
                           first_month := 0; last_month := qz 6 |};
              slot_2 := {| chosen := "S2"; percent := qz 5;
                           first_month := 0; last_month := qz 3 |};
              slot_3 := {| chosen := "S3"; percent := qz 7;
                           first_month := qz 1; last_month := qz 2 |};
              slot_4 := {| chosen := "S4"; percent := 1;
                           first_month := 0; last_month := qz 6 |};
              slot_5 := {| chosen := "S5"; percent := 1;
                           first_month := 0; last_month := qz 6 |};
              more_2 := true; more_3 := true; more_4 := false;
              more_5 := false |} in
  let d := panel_sectors_n_shocks p in
  panel_get d (Name "S1") = Some (entry_of (slot_1 p)) /\
  panel_get d (Name "S2") = Some (entry_of (slot_2 p)) /\
  panel_get d (Name "S3") = Some (entry_of (slot_3 p)) /\
  panel_get d (Name "S4") = None /\
  panel_get d (Name "S5") = None.
Proof.
  intros p. apply (shock_panel_entries p). reflexivity.
Defined.

(** X20.  The targeted stimulus panel misplaces its third block.  With five
    distinct sectors chosen and the third block shown, the sector chosen in
    the second block gets no stimulus, the sector chosen in the third block
    gets the percentage and months of the second block, and the percentage
    and months of the third block are stored under the key [0], where they
    stay only if the fourth and fifth blocks are shown too. *)
Theorem stimulus_panel_third_block (p : panel) :
  nodupb [chosen (slot_1 p); chosen (slot_2 p); chosen (slot_3 p);
          chosen (slot_4 p); chosen (slot_5 p)] = true ->
  more_2 p = true ->
  more_3 p = true ->
  let d := panel_sectors_n_stimuli p in
  panel_get d (Name (chosen (slot_1 p))) = Some (entry_of (slot_1 p)) /\
  panel_get d (Name (chosen (slot_2 p))) = None /\
  panel_get d (Name (chosen (slot_3 p))) = Some (entry_of (slot_2 p)) /\
  panel_get d Zero
    = Some (if more_4 p && more_5 p then entry_of (slot_3 p)
            else snd (literal_entry unset)).
Proof.
  intros H. destruct p as [s1 s2 s3 s4 s5 m2 m3 m4 m5].
  cbn [slot_1 slot_2 slot_3 slot_4 slot_5 more_2 more_3 more_4 more_5] in *.
  intros -> ->.
  destruct (distinct_five _ _ _ _ _ H)
    as (Hab & Hac & Had & Hae & Hbc & Hbd & Hbe & Hcd & Hce & Hde).
  pose proof (String.eqb_sym (chosen s2) (chosen s1)) as Sba.
  pose proof (String.eqb_sym (chosen s3) (chosen s1)) as Sca.
  pose proof (String.eqb_sym (chosen s4) (chosen s1)) as Sda.
  pose proof (String.eqb_sym (chosen s5) (chosen s1)) as Sea.
  pose proof (String.eqb_sym (chosen s3) (chosen s2)) as Scb.
  pose proof (String.eqb_sym (chosen s4) (chosen s2)) as Sdb.
  pose proof (String.eqb_sym (chosen s5) (chosen s2)) as Seb.
  pose proof (String.eqb_sym (chosen s4) (chosen s3)) as Sdc.
  pose proof (String.eqb_sym (chosen s5) (chosen s3)) as Sec.
  pose proof (String.eqb_sym (chosen s5) (chosen s4)) as Sed.
  rewrite Hab in Sba. rewrite Hac in Sca. rewrite Had in Sda.
  rewrite Hae in Sea. rewrite Hbc in Scb. rewrite Hbd in Sdb.
  rewrite Hbe in Seb. rewrite Hcd in Sdc. rewrite Hce in Sec.
  rewrite Hde in Sed.
  unfold panel_sectors_n_stimuli, dict_literal, stimulus_panel_vars,
         literal_entry, read, unset, entry_of.
  destruct m4, m5;
    cbn [map fold_left fst snd var_sector var_val var_start var_end andb
         more_2 more_3 more_4 more_5 slot_1 slot_2 slot_3 slot_4 slot_5];
    rewrite !panel_get_set; cbn [pykey_eqb panel_get];
    rewrite ?String.eqb_refl, ?Hab, ?Hac, ?Had, ?Hae, ?Hbc, ?Hbd, ?Hbe,
            ?Hcd, ?Hce, ?Hde, ?Sba, ?Sca, ?Sda, ?Sea, ?Scb, ?Sdb, ?Seb,
            ?Sdc, ?Sec, ?Sed;
    repeat split.
Qed.

Lemma stimulus_panel_third_block_witness :
  let p := {| slot_1 := {| chosen := "S1"; percent := qz 10;
                           first_month := 0; last_month := qz 6 |};
              slot_2 := {| chosen := "S2"; percent := qz 5;
                           first_month := 0; last_month := qz 3 |};
              slot_3 := {| chosen := "S3"; percent := qz 7;
                           first_month := qz 1; last_month := qz 2 |};
              slot_4 := {| chosen := "S4"; percent := 1;
                           first_month := 0; last_month := qz 6 |};
              slot_5 := {| chosen := "S5"; percent := 1;
                           first_month := 0; last_month := qz 6 |};
              more_2 := true; more_3 := true; more_4 := false;
              more_5 := false |} in
  let d := panel_sectors_n_stimuli p in
  panel_get d (Name "S1") = Some (entry_of (slot_1 p)) /\
  panel_get d (Name "S2") = None /\
  panel_get d (Name "S3") = Some (entry_of (slot_2 p)) /\
  panel_get d Zero = Some (snd (literal_entry unset)).
Proof.
  intros p. apply (stimulus_panel_third_block p); reflexivity.
Defined.

(** ** From a targeted stimulus to the right-hand side *)

(** The targeted recovery spec is a dictionary on the names of its
    overrides. *)
Lemma recovery_spec_targeted (self : LeonTradeModel.t) (ov : dict triple)
    (g : triple) :
  names_known (LeonTradeModel.sectors self) ov = true ->
  exists spec,
    LeonTradeModel.recovery_impulse self (Some ov) g "Target sector(s)"
      = Ok spec /\
    (forall k, dict_get spec k = dict_get ov k) /\
    dict_wf spec = true /\
    names_known (LeonTradeModel.sectors self) spec = true.
Proof.
  intros Hknown. eexists. split; [reflexivity|].
  assert (E : forall k, dict_get (dict_overlay [] ov) k = dict_get ov k).
  { intros k. rewrite dict_get_overlay. simpl. now destruct (dict_get ov k). }
  split; [exact E|]. split; [now apply dict_wf_overlay|].
  unfold names_known in *. rewrite forallb_forall in *. intros k Hk.
  apply Hknown. apply mem_In. apply mem_In in Hk.
  rewrite mem_keys_get in *. now rewrite <- E.
Qed.

(** X21.  In the run with a targeted stimulus on sectors of the economy, a
    sector that the stimulus does not name has no entry in the recovery
    spec and is treated as not stimulated: the right-hand side with
    recovery is [(A - I) y] plus the shock forcing plus, for each sector,
    the magnitude of its stimulus while it is active if it is named, and
    zero if it is not. *)
Theorem targeted_stimulus_drives_dynamics (self : LeonTradeModel.t)
    (shock ov : dict triple) (g : triple) (A : matrix) (y : vec) (t : Qc)
    (n : nat) :
  names_known (LeonTradeModel.sectors self) ov = true ->
  dict_wf shock = true ->
  names_known (LeonTradeModel.sectors self) shock = true ->
  square n A = true ->
  length (LeonTradeModel.sectors self) = n ->
  length y = n ->
  exists recovery,
    LeonTradeModel.recovery_impulse self (Some ov) g "Target sector(s)"
      = Ok recovery /\
    economic_dynamics_ode_rec y t A (LeonTradeModel.sectors self) shock recovery
    = Ok (propagation_law A y
            (zip_with Qcplus
               (evaluate shock t (LeonTradeModel.sectors self))
               (map (fun s => match dict_get ov s with
                              | Some x => if active t x then magnitude x else 0
                              | None => 0
                              end)
                    (LeonTradeModel.sectors self)))).
Proof.
  intros Hknown Hws Hks Hsq Hsec Hy.
  destruct (recovery_spec_targeted self ov g Hknown)
    as (recovery & Hr & E & Hwr & Hkr).
  exists recovery. split; [exact Hr|].
  destruct (dynamics_values y t A (LeonTradeModel.sectors self) shock recovery n)
    as [_ H]; try assumption.
  rewrite H. do 3 f_equal. unfold evaluate. apply map_ext. intros s.
  now rewrite E.
Qed.

Lemma targeted_stimulus_drives_dynamics_witness :
  exists recovery,
    LeonTradeModel.recovery_impulse two_sector_model
      (Some [("S2", (0, 1, half))]) (0, 0, 0) "Target sector(s)"
      = Ok recovery /\
    economic_dynamics_ode_rec [1; 1] 0 [[qz 1; qz 2]; [qz 3; qz 4]]
      (LeonTradeModel.sectors two_sector_model)
      [("S1", (0, half, 1))] recovery
    = Ok (propagation_law [[qz 1; qz 2]; [qz 3; qz 4]] [1; 1]
            (zip_with Qcplus
               (evaluate [("S1", (0, half, 1))] 0
                         (LeonTradeModel.sectors two_sector_model))
               (map (fun s => match dict_get [("S2", (0, 1, half))] s with
                              | Some x => if active 0 x then magnitude x else 0
                              | None => 0
                              end)
                    (LeonTradeModel.sectors two_sector_model)))).
Proof.
  apply (targeted_stimulus_drives_dynamics two_sector_model
           [("S1", (0, half, 1))] [("S2", (0, 1, half))] (0, 0, 0)
           [[qz 1; qz 2]; [qz 3; qz 4]] [1; 1] 0 2);
    reflexivity.
Defined.
